(** * Wall-follower: the high-level controller of [high_level_control.cpp]

    A shallow embedding of [HighLevelControl] (the callback run on every
    scan message, the clearance policy, the wall-follow state machine and
    the circle-approach controller) together with the properties that the
    specification states about them.

    C++ [double] values are IEEE 754 binary64 numbers: they are modelled by
    Rocq's primitive floats, so every comparison and every arithmetic
    operation below rounds and treats NaN as the compiled code does. *)

From Stdlib Require Import ZArith List Bool Lia Floats.
From Stdlib Require String.
Import String.StringSyntax.
Delimit Scope string_scope with string.
Import ListNotations.

Set Warnings "-inexact-float".

Local Open Scope float_scope.

(** ** Doubles *)

Definition double := float.

(** C++ writes [a > b] and [a >= b]; IEEE defines them as [b < a], [b <= a]. *)
Notation "x >? y" := (PrimFloat.ltb y x) (only parsing) : float_scope.
Notation "x >=? y" := (PrimFloat.leb y x) (only parsing) : float_scope.

(** Implicit conversion [int -> double] (exact for the small integers the
    controller uses). *)
Definition double_of_int (z : Z) : double :=
  match z with
  | Z0 => 0
  | Zpos _ => of_uint63 (Uint63.of_Z z)
  | Zneg p => - of_uint63 (Uint63.of_Z (Zpos p))
  end.

(** A value is ordered when it is not NaN, i.e. when it compares equal to
    itself under [<=]. *)
Definition ordered (x : double) : Prop := (x <=? x) = true.

(** ** Results of C++ computations

    [HighLevelControl] reads the scan through [std::vector::operator[]],
    which performs no bounds check: an access outside the vector is
    undefined behaviour, after which nothing is known of the process.  A
    C++ exception, which no function of the controller catches, unwinds
    through the callback. *)

Inductive exn : Type := OutOfRange | InvalidWindow.

Inductive result (A : Type) : Type :=
| Ok (a : A)
| Raise (e : exn)
| UB.

Arguments Ok {A} a.
Arguments Raise {A} e.
Arguments UB {A}.

Definition bind {A B : Type} (r : result A) (k : A -> result B) : result B :=
  match r with
  | Ok a => k a
  | Raise e => Raise e
  | UB => UB
  end.

Notation "x <- c ;; k" := (bind c (fun x => k))
  (at level 61, c at next level, right associativity).

(** [v[i]] on a [std::vector<float>], widened to [double] (the widening is
    exact, so a reading is modelled by the double it becomes). *)
Definition vec_get (v : list double) (i : Z) : result double :=
  if (i <? 0)%Z then UB
  else match nth_error v (Z.to_nat i) with
       | Some x => Ok x
       | None => UB
       end.

(** ** Data model ([high_level_control.h]) *)

(** Modelled from the spec: the enumeration [TurnType] is declared in
    [high_level_control.h], which is not among the sources.  The code derives
    the turn sign as [turn_type_ - 1] and the specification gives that sign
    as LEFT -> +1, NONE -> 0, RIGHT -> -1, which fixes the enumerators'
    values. *)
Inductive TurnType : Type := RIGHT | NONE | LEFT.

Definition TurnType_to_int (t : TurnType) : Z :=
  match t with
  | RIGHT => 0
  | NONE => 1
  | LEFT => 2
  end.

Record Range : Type := mkRange {
  low_lim_ : Z;
  high_lim_ : Z
}.

Record MoveSpecs : Type := mkMoveSpecs {
  high_security_distance_ : double;
  low_security_distance_ : double;
  wall_follow_distance_ : double;
  linear_velocity_ : double;
  angular_velocity_ : double;
  right_range_ : Range;
  left_range_ : Range;
  center_range_ : Range;
  turn_type_ : TurnType
}.

Record MoveStatus : Type := mkMoveStatus {
  can_continue_ : bool;
  is_close_to_wall_ : bool;
  is_following_wall_ : bool
}.

(** The two fields of [geometry_msgs::Twist] that [Move] fills in. *)
Record Twist : Type := mkTwist {
  linear_x : double;
  angular_z : double
}.

(** [robot::circle_detect_msg]: one scan frame and one target observation. *)
Record circle_detect_msg : Type := mkMsg {
  msg_ranges : list double;
  msg_circle_x : double;
  msg_circle_y : double
}.

(** The controller object.  [cmd_vel_pub_] is the publisher on [cmd_vel],
    modelled by the messages published so far, most recent first;
    [ros_shutdown_] records that [ros::shutdown()] has been called (the call
    asks the ROS runtime to stop and returns to its caller).  The members
    [circle_x] and [circle_y] are declared in [high_level_control.h]; they
    are taken to be doubles.  No statement below depends on how the sum of
    their squares is rounded. *)
Record HighLevelControl : Type := mkHighLevelControl {
  move_specs_ : MoveSpecs;
  move_status_ : MoveStatus;
  circle_x : double;
  circle_y : double;
  circle_hit_mode_ : bool;
  cmd_vel_pub_ : list Twist;
  ros_shutdown_ : bool
}.

(** What a cycle takes from its environment besides the message: the value
    returned by [rand()] after [srand(time(NULL))], and the content of the
    stack slot of the local [min] of [IsCloseToWall], which the code reads
    without having written it when the turn type is NONE. *)
Record Env : Type := mkEnv {
  rand_value : Z;
  stack_min : double
}.

(** *** Field updates *)

Definition set_turn_type_ (t : TurnType) (this : HighLevelControl) : HighLevelControl :=
  let s := move_specs_ this in
  mkHighLevelControl
    (mkMoveSpecs (high_security_distance_ s) (low_security_distance_ s)
       (wall_follow_distance_ s) (linear_velocity_ s) (angular_velocity_ s)
       (right_range_ s) (left_range_ s) (center_range_ s) t)
    (move_status_ this) (circle_x this) (circle_y this) (circle_hit_mode_ this)
    (cmd_vel_pub_ this) (ros_shutdown_ this).

Definition set_move_status_ (m : MoveStatus) (this : HighLevelControl) : HighLevelControl :=
  mkHighLevelControl (move_specs_ this) m (circle_x this) (circle_y this)
    (circle_hit_mode_ this) (cmd_vel_pub_ this) (ros_shutdown_ this).

Definition set_can_continue_ (b : bool) (this : HighLevelControl) : HighLevelControl :=
  let m := move_status_ this in
  set_move_status_ (mkMoveStatus b (is_close_to_wall_ m) (is_following_wall_ m)) this.

Definition set_is_close_to_wall_ (b : bool) (this : HighLevelControl) : HighLevelControl :=
  let m := move_status_ this in
  set_move_status_ (mkMoveStatus (can_continue_ m) b (is_following_wall_ m)) this.

Definition set_is_following_wall_ (b : bool) (this : HighLevelControl) : HighLevelControl :=
  let m := move_status_ this in
  set_move_status_ (mkMoveStatus (can_continue_ m) (is_close_to_wall_ m) b) this.

Definition set_circle (x y : double) (this : HighLevelControl) : HighLevelControl :=
  mkHighLevelControl (move_specs_ this) (move_status_ this) x y
    (circle_hit_mode_ this) (cmd_vel_pub_ this) (ros_shutdown_ this).

Definition set_circle_hit_mode_ (b : bool) (this : HighLevelControl) : HighLevelControl :=
  mkHighLevelControl (move_specs_ this) (move_status_ this) (circle_x this) (circle_y this)
    b (cmd_vel_pub_ this) (ros_shutdown_ this).

Definition publish (msg : Twist) (this : HighLevelControl) : HighLevelControl :=
  mkHighLevelControl (move_specs_ this) (move_status_ this) (circle_x this) (circle_y this)
    (circle_hit_mode_ this) (msg :: cmd_vel_pub_ this) (ros_shutdown_ this).

Definition ros_shutdown (this : HighLevelControl) : HighLevelControl :=
  mkHighLevelControl (move_specs_ this) (move_status_ this) (circle_x this) (circle_y this)
    (circle_hit_mode_ this) (cmd_vel_pub_ this) true.

(** ** Helpers of [util_functions.h] *)

(** Modelled from the spec: [Min] is defined in [util_functions.h], which is
    not among the sources; the specification describes it as the minimum of
    its three arguments.  It is written with the comparison idiom that
    [CanContinue] itself uses for two values. *)
Definition Min (a b c : double) : double :=
  let m := if a <? b then a else b in
  if m <? c then m else c.

(** Modelled from the spec: [GetMin] is defined in [util_functions.h], which
    is not among the sources.  The specification (minInWindow) has it scan
    the window, bounds included, keep the smallest finite reading, and fail
    with InvalidWindow on an empty window or on bounds outside the frame.
    The controller below is parameterised by its [GetMin]; this model is the
    instance used to run it on concrete frames. *)
Definition GetMin_model (ranges : list double) (low high : Z) : result double :=
  if ((low <? 0) || (high <? low) || (Z.of_nat (length ranges) <=? high))%Z
  then Raise InvalidWindow
  else
    let window := firstn (Z.to_nat (high - low + 1)) (skipn (Z.to_nat low) ranges) in
    Ok (fold_left (fun m x => if is_finite x && (x <? m) then x else m) window infinity).

(** ** The controller ([high_level_control.cpp]) *)

Definition PI : double := 3.14159265.

Definition InitialiseMoveStatus (this : HighLevelControl) : HighLevelControl :=
  set_move_status_ (mkMoveStatus true false false) this.

Definition Move (linear_velocity angular_velocity : double) (this : HighLevelControl)
  : HighLevelControl :=
  publish (mkTwist linear_velocity angular_velocity) this.

Definition CanContinue (right_min_distance left_min_distance center_min_distance : double)
  (this : HighLevelControl) : HighLevelControl :=
  let specs := move_specs_ this in
  let '(priority_min, secondary_min) :=
    match turn_type_ specs with
    | RIGHT =>
        (if center_min_distance <? right_min_distance
         then center_min_distance else right_min_distance,
         left_min_distance)
    | LEFT =>
        (if center_min_distance <? left_min_distance
         then center_min_distance else left_min_distance,
         right_min_distance)
    | NONE =>
        let m := Min right_min_distance left_min_distance center_min_distance in
        (m, m)
    end in
  if (priority_min >? high_security_distance_ specs)
     && (secondary_min >? low_security_distance_ specs)
  then set_can_continue_ true this
  else set_can_continue_ false this.

Definition IsCloseToWall (env : Env)
  (right_min_distance left_min_distance center_min_distance : double)
  (this : HighLevelControl) : HighLevelControl :=
  if is_following_wall_ (move_status_ this) then
    let '(min, this) :=
      match turn_type_ (move_specs_ this) with
      | RIGHT => (right_min_distance, this)
      | LEFT => (left_min_distance, this)
      | NONE => (stack_min env, ros_shutdown this)
      end in
    if min <? wall_follow_distance_ (move_specs_ this)
    then set_is_close_to_wall_ true this
    else set_is_close_to_wall_ false this
  else this.

Definition WallFollowMove (env : Env) (this : HighLevelControl) : HighLevelControl :=
  let specs := move_specs_ this in
  let status := move_status_ this in
  let turn := TurnType_to_int (turn_type_ specs) in
  if negb (can_continue_ status) && negb (is_following_wall_ status) then
    let this := set_turn_type_ (if (Z.rem (rand_value env) 2 =? 0)%Z then RIGHT else LEFT) this in
    set_is_following_wall_ true this
  else if can_continue_ status && negb (is_following_wall_ status) then
    Move (linear_velocity_ specs) 0 this
  else
    if can_continue_ status && is_close_to_wall_ status then
      Move (linear_velocity_ specs) 0 this
    else if negb (can_continue_ status) then
      Move 0 (double_of_int (turn - 1) * angular_velocity_ specs) this
    else if negb (is_close_to_wall_ status) then
      Move 0 (double_of_int (-1 * (turn - 1)) * angular_velocity_ specs) this
    else this.

Section Controller.

(** [sin] of [<cmath>], and the [GetMin] of [util_functions.h]. *)
Variable sin : double -> double.
Variable GetMin : list double -> Z -> Z -> result double.

Definition NormalMovement (env : Env) (ranges : list double) (this : HighLevelControl)
  : result HighLevelControl :=
  let specs := move_specs_ this in
  right_min_distance <-
    GetMin ranges (low_lim_ (right_range_ specs)) (high_lim_ (right_range_ specs)) ;;
  left_min_distance <-
    GetMin ranges (low_lim_ (left_range_ specs)) (high_lim_ (left_range_ specs)) ;;
  center_min_distance <-
    GetMin ranges (low_lim_ (center_range_ specs)) (high_lim_ (center_range_ specs)) ;;
  let this := CanContinue right_min_distance left_min_distance center_min_distance this in
  Ok (IsCloseToWall env right_min_distance left_min_distance center_min_distance this).

Definition HitCircle (ranges : list double) (this : HighLevelControl)
  : result HighLevelControl :=
  let specs := move_specs_ this in
  let turn := TurnType_to_int (turn_type_ specs) in
  match turn_type_ specs with
  | RIGHT =>
      back_value <- vec_get ranges (low_lim_ (right_range_ specs)) ;;
      front_value <- vec_get ranges 90 ;;
      let diff := front_value - sin (PI / 3.0) * back_value in
      if (diff <=? 0.05) && (diff >=? -0.05) then
        Ok (Move (linear_velocity_ specs) 0 this)
      else if diff >? 0.05 then
        Ok (Move 0 (double_of_int (-1 * (turn - 1)) * angular_velocity_ specs / 4) this)
      else
        Ok (Move 0 (double_of_int (turn - 1) * angular_velocity_ specs / 4) this)
  | LEFT =>
      back_value <- vec_get ranges (high_lim_ (left_range_ specs)) ;;
      front_value <- vec_get ranges 630 ;;
      let diff := front_value - sin (PI / 3.0) * back_value in
      if (diff <=? 0.05) && (diff >=? -0.05) then
        Ok (Move (linear_velocity_ specs) 0 this)
      else if diff >? 0.05 then
        Ok (Move 0 (double_of_int (-1 * (turn - 1)) * angular_velocity_ specs / 4) this)
      else
        Ok (Move 0 (double_of_int (turn - 1) * angular_velocity_ specs / 4) this)
  | NONE => Ok this
  end.

Definition LaserCallback (env : Env) (msg : circle_detect_msg) (this : HighLevelControl)
  : result HighLevelControl :=
  let ranges := msg_ranges msg in
  if negb (circle_hit_mode_ this) then
    let this := set_circle (msg_circle_x msg) (msg_circle_y msg) this in
    wall <-
      match turn_type_ (move_specs_ this) with
      | RIGHT => vec_get ranges 380
      | LEFT => vec_get ranges 340
      | NONE => Ok 1
      end ;;
    let threshold := circle_x this * circle_x this + circle_y this * circle_y this + 0.5 in
    let this :=
      if (wall * wall >? threshold) && (circle_x this >? -0.5)
         && (circle_x this <? 0.5) && (circle_y this <? 1)
      then set_circle_hit_mode_ true this
      else this in
    this <- NormalMovement env ranges this ;;
    Ok (WallFollowMove env this)
  else
    HitCircle ranges this.

(** A run: the controller states after each completed cycle.  A cycle that
    does not return normally ends the process, and the run with it. *)
Fixpoint run (this : HighLevelControl) (inputs : list (Env * circle_detect_msg))
  : list HighLevelControl :=
  match inputs with
  | [] => []
  | (env, msg) :: rest =>
      match LaserCallback env msg this with
      | Ok this' => this' :: run this' rest
      | _ => []
      end
  end.

End Controller.

(** ** Vocabulary of the specification *)

(** The turn sign: +1 for LEFT, 0 for NONE, -1 for RIGHT. *)
Definition sign (t : TurnType) : Z :=
  match t with
  | LEFT => 1
  | NONE => 0
  | RIGHT => -1
  end.

(** The reference wall distance of the mode arbiter: [ranges[380]] when
    turning RIGHT, [ranges[340]] when turning LEFT, 1.0 otherwise. *)
Definition wall_reference (t : TurnType) (ranges : list double) : result double :=
  match t with
  | RIGHT => vec_get ranges 380
  | LEFT => vec_get ranges 340
  | NONE => Ok 1
  end.

(** The controller after the mode arbiter has run (the first half of the
    wall-follow branch of [LaserCallback]), given the reference wall
    distance it read. *)
Definition after_arbiter (wall : double) (msg : circle_detect_msg) (this : HighLevelControl)
  : HighLevelControl :=
  let this := set_circle (msg_circle_x msg) (msg_circle_y msg) this in
  let threshold := circle_x this * circle_x this + circle_y this * circle_y this + 0.5 in
  if (wall * wall >? threshold) && (circle_x this >? -0.5)
     && (circle_x this <? 0.5) && (circle_y this <? 1)
  then set_circle_hit_mode_ true this
  else this.

(** The clearance policy in the specification's words. *)
Module Spec.

Definition min (a b : double) : double := if a <? b then a else b.

Definition priority (t : TurnType) (rightMin leftMin centerMin : double) : double :=
  match t with
  | RIGHT => min centerMin rightMin
  | LEFT => min centerMin leftMin
  | NONE => Min rightMin leftMin centerMin
  end.

Definition secondary (t : TurnType) (rightMin leftMin centerMin : double) : double :=
  match t with
  | RIGHT => leftMin
  | LEFT => rightMin
  | NONE => Min rightMin leftMin centerMin
  end.

Definition evaluateCanContinue (specs : MoveSpecs) (rightMin leftMin centerMin : double)
  (t : TurnType) : bool :=
  (priority t rightMin leftMin centerMin >? high_security_distance_ specs)
  && (secondary t rightMin leftMin centerMin >? low_security_distance_ specs).

End Spec.

(** ** Concrete configuration and frames, for running the controller *)

Definition specs0 (t : TurnType) : MoveSpecs :=
  mkMoveSpecs 0.5 0.3 0.6 0.2 0.4 (mkRange 100 200) (mkRange 520 620) (mkRange 300 420) t.

(** The controller after construction: no turn chosen, target absent. *)
Definition hlc0 : HighLevelControl :=
  InitialiseMoveStatus
    (mkHighLevelControl (specs0 NONE) (mkMoveStatus false false false) (-10) (-10) false [] false).

(** A controller that follows a wall on side [t], with the given status. *)
Definition following (t : TurnType) (can_continue close hit : bool) : HighLevelControl :=
  mkHighLevelControl (specs0 t) (mkMoveStatus can_continue close true) (-10) (-10) hit [] false.

(** A frame of [n] readings, all at distance [d]. *)
Definition frame (n : nat) (d : double) : list double := repeat d n.

(** A stand-in for [sin], used only to run the controller on concrete
    frames: the binary64 value of [sin] at the one argument the controller
    passes, [PI / 3.0] = 1.0471975500000001. *)
Definition sin60 (_ : double) : double := 0.8660254031861399.

(** The frame of scenario E: 0.9 at bearing 90, 1.0 everywhere else. *)
Definition frameE : list double := frame 90 1 ++ [0.9] ++ frame 629 1.

(** Three cycles from the constructed controller: a blocked path with no
    target in sight, then the target of scenario F on an open frame, then
    an open frame with the target lost again. *)
Definition cycle_blocked : circle_detect_msg := mkMsg (frame 720 0.2) (-10) (-10).
Definition cycle_target : circle_detect_msg := mkMsg (frame 720 2) 0 0.5.
Definition cycle_lost : circle_detect_msg := mkMsg (frame 720 2) (-10) (-10).

(** A frame that stops short of bearing 380. *)
Definition cycle_short : circle_detect_msg := mkMsg (frame 360 2) 0 0.5.

Definition env0 : Env := mkEnv 0 0.
Definition env1 : Env := mkEnv 1 0.

(** ** Construction ([HighLevelControl::HighLevelControl]) *)

(** The parameter server behind [node_], as [getParam] sees it: for each
    key, the value it holds if that value can be read as a [double], resp.
    as an [int]. *)
Record NodeHandle : Type := mkNodeHandle {
  param_double : String.string -> option double;
  param_int : String.string -> option Z
}.

(** [node_.getParam(key, var)]: on success the value is stored in [var] and
    the call returns true; on a missing key [var] is left as it was and the
    call returns false. *)
Definition getParam {A : Type} (params : String.string -> option A) (key : String.string)
  (var : A) : bool * A :=
  match params key with
  | Some v => (true, v)
  | None => (false, var)
  end.

Definition set_move_specs_ (s : MoveSpecs) (this : HighLevelControl) : HighLevelControl :=
  mkHighLevelControl s (move_status_ this) (circle_x this) (circle_y this)
    (circle_hit_mode_ this) (cmd_vel_pub_ this) (ros_shutdown_ this).

Definition InitialiseMoveSpecs (node_ : NodeHandle) (this : HighLevelControl)
  : HighLevelControl :=
  let s := move_specs_ this in
  let loaded := true in
  let '(ok, high_security_distance) :=
    getParam (param_double node_) "/HighLevelControl/high_security_distance"%string
      (high_security_distance_ s) in
  let loaded := if negb ok then false else loaded in
  let '(ok, low_security_distance) :=
    getParam (param_double node_) "/HighLevelControl/low_security_distance"%string
      (low_security_distance_ s) in
  let loaded := if negb ok then false else loaded in
  let '(ok, wall_follow_distance) :=
    getParam (param_double node_) "/HighLevelControl/wall_follow_distance"%string
      (wall_follow_distance_ s) in
  let loaded := if negb ok then false else loaded in
  let '(ok, linear_velocity) :=
    getParam (param_double node_) "/HighLevelControl/linear_velocity"%string
      (linear_velocity_ s) in
  let loaded := if negb ok then false else loaded in
  let '(ok, angular_velocity) :=
    getParam (param_double node_) "/HighLevelControl/angular_velocity"%string
      (angular_velocity_ s) in
  let loaded := if negb ok then false else loaded in
  let '(ok, right_low) :=
    getParam (param_int node_) "/HighLevelControl/right_range_low_lim"%string
      (low_lim_ (right_range_ s)) in
  let loaded := if negb ok then false else loaded in
  let '(ok, right_high) :=
    getParam (param_int node_) "/HighLevelControl/right_range_high_lim"%string
      (high_lim_ (right_range_ s)) in
  let loaded := if negb ok then false else loaded in
  let '(ok, left_low) :=
    getParam (param_int node_) "/HighLevelControl/left_range_low_lim"%string
      (low_lim_ (left_range_ s)) in
  let loaded := if negb ok then false else loaded in
  let '(ok, left_high) :=
    getParam (param_int node_) "/HighLevelControl/left_range_high_lim"%string
      (high_lim_ (left_range_ s)) in
  let loaded := if negb ok then false else loaded in
  let '(ok, center_low) :=
    getParam (param_int node_) "/HighLevelControl/center_range_low_lim"%string
      (low_lim_ (center_range_ s)) in
  let loaded := if negb ok then false else loaded in
  let '(ok, center_high) :=
    getParam (param_int node_) "/HighLevelControl/center_range_high_lim"%string
      (high_lim_ (center_range_ s)) in
  let loaded := if negb ok then false else loaded in
  let this :=
    set_move_specs_
      (mkMoveSpecs high_security_distance low_security_distance wall_follow_distance
         linear_velocity angular_velocity (mkRange right_low right_high)
         (mkRange left_low left_high) (mkRange center_low center_high) NONE) this in
  if Bool.eqb loaded false then ros_shutdown this else this.

(** The constructor, run on the object as member initialisation left it.
    [advertise] gives a publisher on which nothing has been published. *)
Definition HighLevelControl_ctor (node_ : NodeHandle) (this : HighLevelControl)
  : HighLevelControl :=
  let this := InitialiseMoveSpecs node_ this in
  let this := InitialiseMoveStatus this in
  let this := set_circle (-10) (-10) this in
  mkHighLevelControl (move_specs_ this) (move_status_ this) (circle_x this) (circle_y this)
    (circle_hit_mode_ this) [] (ros_shutdown_ this).

(** ** Predicates on controller states *)

(** A followed wall has a side: while [is_following_wall_] holds the turn
    type is LEFT or RIGHT. *)
Definition wall_side_chosen (this : HighLevelControl) : Prop :=
  is_following_wall_ (move_status_ this) = true -> turn_type_ (move_specs_ this) <> NONE.

(** The configuration proper: the move specs without the turn type. *)
Definition config (s : MoveSpecs) : MoveSpecs :=
  mkMoveSpecs (high_security_distance_ s) (low_security_distance_ s)
    (wall_follow_distance_ s) (linear_velocity_ s) (angular_velocity_ s)
    (right_range_ s) (left_range_ s) (center_range_ s) NONE.

(** The eleven keys that [InitialiseMoveSpecs] reads. *)
Definition double_keys : list String.string :=
  ["/HighLevelControl/high_security_distance"%string;
   "/HighLevelControl/low_security_distance"%string;
   "/HighLevelControl/wall_follow_distance"%string;
   "/HighLevelControl/linear_velocity"%string;
   "/HighLevelControl/angular_velocity"%string].

Definition int_keys : list String.string :=
  ["/HighLevelControl/right_range_low_lim"%string;
   "/HighLevelControl/right_range_high_lim"%string;
   "/HighLevelControl/left_range_low_lim"%string;
   "/HighLevelControl/left_range_high_lim"%string;
   "/HighLevelControl/center_range_low_lim"%string;
   "/HighLevelControl/center_range_high_lim"%string].

Definition present {A : Type} (params : String.string -> option A) (key : String.string) : bool :=
  match params key with
  | Some _ => true
  | None => false
  end.

Definition value_or {A : Type} (o : option A) (default : A) : A :=
  match o with
  | Some v => v
  | None => default
  end.

Definition all_loaded (node_ : NodeHandle) : bool :=
  forallb (present (param_double node_)) double_keys
  && forallb (present (param_int node_)) int_keys.

(** *** Parameter servers and objects for running the constructor *)

Fixpoint assoc {A : Type} (l : list (String.string * A)) (key : String.string) : option A :=
  match l with
  | [] => None
  | (k, v) :: rest => if String.eqb k key then Some v else assoc rest key
  end.

(** The parameters of [specs0]. *)
Definition node_full : NodeHandle :=
  mkNodeHandle
    (assoc [("/HighLevelControl/high_security_distance"%string, 0.5);
            ("/HighLevelControl/low_security_distance"%string, 0.3);
            ("/HighLevelControl/wall_follow_distance"%string, 0.6);
            ("/HighLevelControl/linear_velocity"%string, 0.2);
            ("/HighLevelControl/angular_velocity"%string, 0.4)])
    (assoc [("/HighLevelControl/right_range_low_lim"%string, 100%Z);
            ("/HighLevelControl/right_range_high_lim"%string, 200%Z);
            ("/HighLevelControl/left_range_low_lim"%string, 520%Z);
            ("/HighLevelControl/left_range_high_lim"%string, 620%Z);
            ("/HighLevelControl/center_range_low_lim"%string, 300%Z);
            ("/HighLevelControl/center_range_high_lim"%string, 420%Z)]).

(** The same server without the angular velocity. *)
Definition node_partial : NodeHandle :=
  mkNodeHandle
    (assoc [("/HighLevelControl/high_security_distance"%string, 0.5);
            ("/HighLevelControl/low_security_distance"%string, 0.3);
            ("/HighLevelControl/wall_follow_distance"%string, 0.6);
            ("/HighLevelControl/linear_velocity"%string, 0.2)])
    (param_int node_full).

(** The controller after [cycle_target] on the constructed one: hit mode
    on, no side chosen, one command published. *)
Definition inert0 : HighLevelControl :=
  mkHighLevelControl (specs0 NONE) (mkMoveStatus true false false) 0 0.5 true
    [mkTwist 0.2 0] false.

(** The frame of scenario E with a NaN reading at bearing 90. *)
Definition frameNaN : list double := frame 90 1 ++ [nan] ++ frame 629 1.

(** An object before construction: zeroed fields, hit mode off. *)
Definition blank : HighLevelControl :=
  mkHighLevelControl
    (mkMoveSpecs 0 0 0 0 0 (mkRange 0 0) (mkRange 0 0) (mkRange 0 0) NONE)
    (mkMoveStatus false false false) 0 0 false [] false.

(** *** Order facts on the specification floats *)

Module SFOrder.

Lemma compare_cont_Eq (p q : positive) : Pos.compare_cont Eq p q = (p ?= q)%positive.
Proof. reflexivity. Qed.

Ltac crush_cmp :=
  repeat match goal with
  | |- context [Pos.compare_cont Eq ?p ?q] => rewrite (compare_cont_Eq p q)
  | H : context [Pos.compare_cont Eq ?p ?q] |- _ => rewrite (compare_cont_Eq p q) in H
  end;
  repeat match goal with
  | H : context [(?a ?= ?b)%Z] |- _ => destruct (Z.compare_spec a b); simpl in H
  | H : context [(?a ?= ?b)%positive] |- _ => destruct (Pos.compare_spec a b); simpl in H
  | |- context [(?a ?= ?b)%Z] => destruct (Z.compare_spec a b); simpl
  | |- context [(?a ?= ?b)%positive] => destruct (Pos.compare_spec a b); simpl
  end;
  subst; try congruence; try lia.

Lemma SFcompare_antisym (a b : spec_float) (o : comparison) :
  SFcompare a b = Some o -> SFcompare b a = Some (CompOpp o).
Proof.
  destruct a as [sa|sa| |sa ma ea], b as [sb|sb| |sb mb eb];
    try destruct sa; try destruct sb; simpl; intros H;
    try discriminate; try (injection H as <-; reflexivity).
  all: injection H as <-; f_equal; crush_cmp.
Qed.

Lemma SFcompare_lt_trans (a b c : spec_float) :
  SFcompare a b = Some Lt -> SFcompare b c = Some Lt -> SFcompare a c = Some Lt.
Proof.
  destruct a as [sa|sa| |sa ma ea], b as [sb|sb| |sb mb eb], c as [sc|sc| |sc mc ec];
    try destruct sa; try destruct sb; try destruct sc; simpl; intros H1 H2;
    try discriminate; try reflexivity.
  all: injection H1 as H1; injection H2 as H2; f_equal; crush_cmp.
Qed.

Lemma SFcompare_lt_eq_trans (a b c : spec_float) :
  SFcompare a b = Some Lt -> SFcompare b c = Some Eq -> SFcompare a c = Some Lt.
Proof.
  destruct a as [sa|sa| |sa ma ea], b as [sb|sb| |sb mb eb], c as [sc|sc| |sc mc ec];
    try destruct sa; try destruct sb; try destruct sc; simpl; intros H1 H2;
    try discriminate; try reflexivity.
  all: injection H1 as H1; injection H2 as H2; f_equal; crush_cmp.
Qed.

Lemma SFcompare_total (a b : spec_float) :
  SFcompare a a <> None -> SFcompare b b <> None -> SFcompare a b <> None.
Proof.
  destruct a as [sa|sa| |sa ma ea], b as [sb|sb| |sb mb eb]; simpl; congruence.
Qed.

End SFOrder.

(** *** Order facts on doubles, through [ltb_spec] and [leb_spec] *)

Section DoubleOrder.

Implicit Types x y z : double.

Lemma ltb_compare x y :
  (x <? y) = true <-> SFcompare (Prim2SF x) (Prim2SF y) = Some Lt.
Proof.
  rewrite ltb_spec; unfold SFltb.
  destruct (SFcompare _ _) as [[]|]; split; congruence.
Qed.

Lemma leb_compare x y :
  (x <=? y) = true <->
  SFcompare (Prim2SF x) (Prim2SF y) = Some Lt \/ SFcompare (Prim2SF x) (Prim2SF y) = Some Eq.
Proof.
  rewrite leb_spec; unfold SFleb.
  destruct (SFcompare _ _) as [[]|]; split; intros; intuition congruence.
Qed.

Lemma ordered_compare x : ordered x <-> SFcompare (Prim2SF x) (Prim2SF x) <> None.
Proof.
  unfold ordered. rewrite leb_compare.
  destruct (Prim2SF x) as [s|s| |s m e]; try destruct s; simpl;
    rewrite ?Z.compare_refl, ?SFOrder.compare_cont_Eq, ?Pos.compare_refl; simpl;
    split; intros; intuition congruence.
Qed.

Lemma ltb_leb_false x y : (x <? y) = true -> (y <=? x) = false.
Proof.
  rewrite ltb_compare; intros H.
  apply SFOrder.SFcompare_antisym in H; simpl in H.
  rewrite leb_spec; unfold SFleb; now rewrite H.
Qed.

Lemma ltb_trans x y z : (x <? y) = true -> (y <? z) = true -> (x <? z) = true.
Proof. rewrite !ltb_compare. apply SFOrder.SFcompare_lt_trans. Qed.

Lemma ltb_leb_trans x y z : (x <? y) = true -> (y <=? z) = true -> (x <? z) = true.
Proof.
  rewrite !ltb_compare, leb_compare. intros H [H'|H'].
  - eapply SFOrder.SFcompare_lt_trans; eassumption.
  - eapply SFOrder.SFcompare_lt_eq_trans; eassumption.
Qed.

Lemma leb_ordered x y : (x <=? y) = true -> ordered x /\ ordered y.
Proof.
  rewrite leb_compare, !ordered_compare.
  destruct (Prim2SF x) as [s|s| |s m e], (Prim2SF y) as [s'|s'| |s' m' e']; simpl;
    intros [H|H]; split; congruence.
Qed.

Lemma ltb_ordered x y : (x <? y) = true -> ordered x /\ ordered y.
Proof.
  rewrite ltb_compare, !ordered_compare.
  destruct (Prim2SF x) as [s|s| |s m e], (Prim2SF y) as [s'|s'| |s' m' e']; simpl;
    intros H; split; congruence.
Qed.

Lemma nltb_leb x y : ordered x -> ordered y -> (x <? y) = false -> (y <=? x) = true.
Proof.
  rewrite !ordered_compare; intros Hx Hy Hlt.
  destruct (SFcompare (Prim2SF x) (Prim2SF y)) as [o|] eqn:E.
  - apply SFOrder.SFcompare_antisym in E.
    apply leb_compare. destruct o; simpl in E; auto.
    exfalso. apply SFOrder.SFcompare_antisym in E; simpl in E.
    apply ltb_compare in E. congruence.
  - exfalso. now apply (SFOrder.SFcompare_total _ _ Hx Hy).
Qed.

End DoubleOrder.

(** ** Frame lemmas: what each operation leaves alone *)

Lemma Move_fields (lin ang : double) (this : HighLevelControl) :
  move_specs_ (Move lin ang this) = move_specs_ this /\
  move_status_ (Move lin ang this) = move_status_ this /\
  circle_hit_mode_ (Move lin ang this) = circle_hit_mode_ this /\
  cmd_vel_pub_ (Move lin ang this) = mkTwist lin ang :: cmd_vel_pub_ this.
Proof. repeat split. Qed.

Lemma CanContinue_fields (r l c : double) (this : HighLevelControl) :
  move_specs_ (CanContinue r l c this) = move_specs_ this /\
  is_close_to_wall_ (move_status_ (CanContinue r l c this)) = is_close_to_wall_ (move_status_ this) /\
  is_following_wall_ (move_status_ (CanContinue r l c this)) = is_following_wall_ (move_status_ this) /\
  circle_hit_mode_ (CanContinue r l c this) = circle_hit_mode_ this /\
  cmd_vel_pub_ (CanContinue r l c this) = cmd_vel_pub_ this.
Proof.
  unfold CanContinue.
  destruct (turn_type_ (move_specs_ this));
    match goal with |- context [if ?b then _ else _] => destruct b end;
    repeat split.
Qed.

Lemma IsCloseToWall_fields (env : Env) (r l c : double) (this : HighLevelControl) :
  move_specs_ (IsCloseToWall env r l c this) = move_specs_ this /\
  can_continue_ (move_status_ (IsCloseToWall env r l c this)) = can_continue_ (move_status_ this) /\
  is_following_wall_ (move_status_ (IsCloseToWall env r l c this)) = is_following_wall_ (move_status_ this) /\
  circle_hit_mode_ (IsCloseToWall env r l c this) = circle_hit_mode_ this /\
  cmd_vel_pub_ (IsCloseToWall env r l c this) = cmd_vel_pub_ this.
Proof.
  unfold IsCloseToWall.
  destruct (is_following_wall_ (move_status_ this)) eqn:Hfollow; [|repeat split; assumption].
  destruct (turn_type_ (move_specs_ this)); cbn;
    match goal with |- context [if ?b then _ else _] => destruct b end;
    repeat split; cbn; auto.
Qed.

Lemma WallFollowMove_hit_mode (env : Env) (this : HighLevelControl) :
  circle_hit_mode_ (WallFollowMove env this) = circle_hit_mode_ this.
Proof.
  unfold WallFollowMove.
  repeat match goal with |- context [if ?b then _ else _] => destruct b end; reflexivity.
Qed.

Lemma WallFollowMove_can_continue (env : Env) (this : HighLevelControl) :
  can_continue_ (move_status_ (WallFollowMove env this)) = can_continue_ (move_status_ this).
Proof.
  unfold WallFollowMove.
  repeat match goal with |- context [if ?b then _ else _] => destruct b end; reflexivity.
Qed.

(** ** Multiplying by the turn sign *)

Lemma Prim2SF_minus_one :
  Prim2SF (double_of_int (-1)) = S754_finite true 4503599627370496 (-52).
Proof. reflexivity. Qed.

Lemma digits2_shift52 (m : positive) :
  Zpos (digits2_pos (4503599627370496 * m)) = (Zpos (digits2_pos m) + 52)%Z.
Proof.
  change (4503599627370496 * m)%positive with (Pos.iter xO m 52%positive).
  cbn [Pos.iter digits2_pos].
  rewrite !Pos2Z.inj_succ. lia.
Qed.

(** The product of -1 = -(2^52) * 2^-52 and a valid binary64 number is
    exact: the mantissa is shifted back by the 52 bits it gained. *)
Lemma SFmul_minus_one (y : spec_float) :
  valid_binary y = true ->
  SF64mul (S754_finite true 4503599627370496 (-52)) y = SFopp y.
Proof.
  destruct y as [s|s| |s m e]; try reflexivity.
  unfold valid_binary, bounded, canonical_mantissa. intros H.
  apply andb_prop in H as [Hc He]. apply Z.eqb_eq in Hc.
  unfold SF64mul, SFmul, binary_round_aux, shr_fexp, Zdigits2.
  rewrite digits2_shift52.
  replace (Z.pos (digits2_pos m) + 52 + (-52 + e))%Z with (Zpos (digits2_pos m) + e)%Z by lia.
  rewrite Hc.
  replace (e - (-52 + e))%Z with 52%Z by lia.
  change (4503599627370496 * m)%positive with (Pos.iter xO m 52%positive).
  cbn -[fexp Z.leb Z.sub Z.add].
  replace (-52 + e + 52)%Z with e by lia.
  rewrite Hc, Z.sub_diag. cbn -[Z.leb Z.sub].
  rewrite He. reflexivity.
Qed.

Lemma mul_minus_one (a : double) : double_of_int (-1) * a = - a.
Proof.
  apply Prim2SF_inj. rewrite mul_spec, opp_spec, Prim2SF_minus_one.
  apply SFmul_minus_one, Prim2SF_valid.
Qed.

Lemma sign_is_turn_minus_one (t : TurnType) : (TurnType_to_int t - 1)%Z = sign t.
Proof. now destruct t. Qed.

Lemma opp_sign_is_turn_minus_one (t : TurnType) : (-1 * (TurnType_to_int t - 1))%Z = (- sign t)%Z.
Proof. now destruct t. Qed.

(** ** The wall-follow state machine *)

(** C1. Wall-follow command table: with the turn direction LEFT or RIGHT,
    [WallFollowMove] publishes exactly one command and changes nothing else:
    (linearVelocity, 0) when it can continue and follows no wall; the same
    when it follows a wall, can continue and is close to it;
    (0, sign * angularVelocity) when it follows a wall and cannot continue;
    (0, -sign * angularVelocity) when it follows a wall, can continue and is
    not close to it.  In particular RIGHT, following and blocked gives
    (0, -angularVelocity). *)
Theorem wall_follow_command_table (env : Env) (this : HighLevelControl) :
  let specs := move_specs_ this in
  let status := move_status_ this in
  let s := sign (turn_type_ specs) in
  turn_type_ specs = LEFT \/ turn_type_ specs = RIGHT ->
  (can_continue_ status = true -> is_following_wall_ status = false ->
   WallFollowMove env this = publish (mkTwist (linear_velocity_ specs) 0) this) /\
  (is_following_wall_ status = true -> can_continue_ status = true ->
   is_close_to_wall_ status = true ->
   WallFollowMove env this = publish (mkTwist (linear_velocity_ specs) 0) this) /\
  (is_following_wall_ status = true -> can_continue_ status = false ->
   WallFollowMove env this =
   publish (mkTwist 0 (double_of_int s * angular_velocity_ specs)) this) /\
  (is_following_wall_ status = true -> can_continue_ status = true ->
   is_close_to_wall_ status = false ->
   WallFollowMove env this =
   publish (mkTwist 0 (double_of_int (- s) * angular_velocity_ specs)) this) /\
  (turn_type_ specs = RIGHT -> is_following_wall_ status = true ->
   can_continue_ status = false ->
   WallFollowMove env this = publish (mkTwist 0 (- angular_velocity_ specs)) this).
Proof.
  intros specs status s Hturn. subst specs status s.
  unfold WallFollowMove, Move; cbv zeta.
  rewrite opp_sign_is_turn_minus_one, sign_is_turn_minus_one.
  repeat split; intros.
  all: repeat match goal with H : _ = true |- _ => rewrite H | H : _ = false |- _ => rewrite H end.
  all: cbn [negb andb]; try reflexivity.
  rewrite <- mul_minus_one.
  match goal with H : turn_type_ _ = RIGHT |- _ => rewrite H end. reflexivity.
Qed.

Lemma wall_follow_command_table_witness :
  WallFollowMove env0 (following RIGHT false false false)
  = publish (mkTwist 0 (-0.4)) (following RIGHT false false false).
Proof.
  destruct (wall_follow_command_table env0 (following RIGHT false false false)
              (or_intror eq_refl)) as (_ & _ & _ & _ & H).
  exact (H eq_refl eq_refl eq_refl).
Defined.

(** Scenarios B, C and D of the specification, run on the configuration
    [specs0] (linear velocity 0.2, angular velocity 0.4). *)
Example scenario_B : cmd_vel_pub_ (WallFollowMove env0 hlc0) = [mkTwist 0.2 0].
Proof. reflexivity. Qed.

Example scenario_C :
  cmd_vel_pub_ (WallFollowMove env0 (following LEFT true true false)) = [mkTwist 0.2 0].
Proof. reflexivity. Qed.

Example scenario_D :
  cmd_vel_pub_ (WallFollowMove env0 (following RIGHT false true false)) = [mkTwist 0 (-0.4)].
Proof. reflexivity. Qed.

(** C6. Blocked-path episode start: when the controller cannot continue and
    follows no wall, [WallFollowMove] sets [is_following_wall_], sets the
    turn direction to LEFT or to RIGHT, and publishes nothing. *)
Theorem blocked_path_starts_episode (env : Env) (this : HighLevelControl) :
  can_continue_ (move_status_ this) = false ->
  is_following_wall_ (move_status_ this) = false ->
  is_following_wall_ (move_status_ (WallFollowMove env this)) = true /\
  (turn_type_ (move_specs_ (WallFollowMove env this)) = LEFT \/
   turn_type_ (move_specs_ (WallFollowMove env this)) = RIGHT) /\
  cmd_vel_pub_ (WallFollowMove env this) = cmd_vel_pub_ this.
Proof.
  intros Hcc Hfw. unfold WallFollowMove. rewrite Hcc, Hfw. cbn [negb andb].
  destruct (Z.rem (rand_value env) 2 =? 0)%Z; cbn; auto.
Qed.

Lemma blocked_path_starts_episode_witness :
  is_following_wall_ (move_status_ (WallFollowMove env1 (set_can_continue_ false hlc0))) = true /\
  (turn_type_ (move_specs_ (WallFollowMove env1 (set_can_continue_ false hlc0))) = LEFT \/
   turn_type_ (move_specs_ (WallFollowMove env1 (set_can_continue_ false hlc0))) = RIGHT) /\
  cmd_vel_pub_ (WallFollowMove env1 (set_can_continue_ false hlc0)) = [].
Proof.
  apply (blocked_path_starts_episode env1 (set_can_continue_ false hlc0)); reflexivity.
Defined.

(** Both outcomes of the draw occur: an even [rand()] picks RIGHT, an odd
    one picks LEFT. *)
Example pick_right :
  turn_type_ (move_specs_ (WallFollowMove env0 (set_can_continue_ false hlc0))) = RIGHT.
Proof. reflexivity. Qed.

Example pick_left :
  turn_type_ (move_specs_ (WallFollowMove env1 (set_can_continue_ false hlc0))) = LEFT.
Proof. reflexivity. Qed.

(** ** The clearance policy *)

(** On ordered values the comparison idiom is the greatest lower bound. *)
Lemma min_ordered (a b : double) : ordered a -> ordered b -> ordered (Spec.min a b).
Proof. unfold Spec.min. now destruct (a <? b). Qed.

Lemma lt_min_iff (h a b : double) :
  ordered a -> ordered b ->
  (h <? Spec.min a b) = true <-> (h <? a) = true /\ (h <? b) = true.
Proof.
  intros Ha Hb. unfold Spec.min. destruct (a <? b) eqn:E; split.
  - intros H. split; [assumption|]. eapply ltb_trans; eassumption.
  - now intros [H _].
  - intros H. split; [|assumption].
    eapply ltb_leb_trans; [eassumption|]. now apply nltb_leb.
  - now intros [_ H].
Qed.

Lemma Min_ordered (a b c : double) : ordered a -> ordered b -> ordered c -> ordered (Min a b c).
Proof.
  intros Ha Hb Hc. change (Min a b c) with (Spec.min (Spec.min a b) c).
  auto using min_ordered.
Qed.

Lemma lt_Min_iff (h a b c : double) :
  ordered a -> ordered b -> ordered c ->
  (h <? Min a b c) = true <-> (h <? a) = true /\ (h <? b) = true /\ (h <? c) = true.
Proof.
  intros Ha Hb Hc. change (Min a b c) with (Spec.min (Spec.min a b) c).
  rewrite lt_min_iff by auto using min_ordered.
  rewrite lt_min_iff by assumption. tauto.
Qed.

Lemma CanContinue_eval (r l c : double) (this : HighLevelControl) :
  CanContinue r l c this
  = set_can_continue_
      (Spec.evaluateCanContinue (move_specs_ this) r l c (turn_type_ (move_specs_ this))) this.
Proof.
  unfold CanContinue, Spec.evaluateCanContinue, Spec.priority, Spec.secondary, Spec.min.
  destruct (turn_type_ (move_specs_ this)); cbv zeta beta iota;
    match goal with |- (if ?b then _ else _) = _ => destruct b end; reflexivity.
Qed.

Lemma CanContinue_true_iff (r l c : double) (this : HighLevelControl) :
  can_continue_ (move_status_ (CanContinue r l c this)) = true <->
  (Spec.priority (turn_type_ (move_specs_ this)) r l c
     >? high_security_distance_ (move_specs_ this)) = true /\
  (Spec.secondary (turn_type_ (move_specs_ this)) r l c
     >? low_security_distance_ (move_specs_ this)) = true.
Proof.
  rewrite CanContinue_eval.
  cbn [set_can_continue_ set_move_status_ move_status_ can_continue_].
  unfold Spec.evaluateCanContinue. now rewrite andb_true_iff.
Qed.

(** C3. Clearance evaluation: [CanContinue] sets [can_continue_] to true
    iff priority > highSecurityDistance and secondary > lowSecurityDistance,
    with priority = min(center, right), secondary = left for RIGHT;
    priority = min(center, left), secondary = right for LEFT; and
    priority = secondary = min(right, left, center) for NONE. *)
Theorem can_continue_iff (r l c : double) (this : HighLevelControl) :
  let specs := move_specs_ this in
  let priority :=
    match turn_type_ specs with
    | RIGHT => Spec.min c r
    | LEFT => Spec.min c l
    | NONE => Min r l c
    end in
  let secondary :=
    match turn_type_ specs with
    | RIGHT => l
    | LEFT => r
    | NONE => Min r l c
    end in
  can_continue_ (move_status_ (CanContinue r l c this)) = true <->
  (priority >? high_security_distance_ specs) = true /\
  (secondary >? low_security_distance_ specs) = true.
Proof.
  cbv zeta. rewrite CanContinue_true_iff.
  unfold Spec.priority, Spec.secondary.
  destruct (turn_type_ (move_specs_ this)); reflexivity.
Qed.

(** On ordered sector minima the result is the conjunction of the
    elementary comparisons. *)
Lemma can_continue_right_ordered (r l c : double) (this : HighLevelControl) :
  turn_type_ (move_specs_ this) = RIGHT -> ordered r -> ordered c ->
  can_continue_ (move_status_ (CanContinue r l c this)) = true <->
  (c >? high_security_distance_ (move_specs_ this)) = true /\
  (r >? high_security_distance_ (move_specs_ this)) = true /\
  (l >? low_security_distance_ (move_specs_ this)) = true.
Proof.
  intros Ht Hr Hc. rewrite CanContinue_true_iff, Ht. cbn [Spec.priority Spec.secondary].
  rewrite lt_min_iff by assumption. tauto.
Qed.

(** C9. Monotonicity of clearance: for a fixed controller (thresholds and
    turn direction), raising each of the three sector minima never turns a
    true [can_continue_] into a false one. *)
Theorem can_continue_monotone (this : HighLevelControl) (r l c r' l' c' : double) :
  (r <=? r') = true -> (l <=? l') = true -> (c <=? c') = true ->
  can_continue_ (move_status_ (CanContinue r l c this)) = true ->
  can_continue_ (move_status_ (CanContinue r' l' c' this)) = true.
Proof.
  intros Hr Hl Hc.
  destruct (leb_ordered _ _ Hr) as [Or Or'].
  destruct (leb_ordered _ _ Hl) as [Ol Ol'].
  destruct (leb_ordered _ _ Hc) as [Oc Oc'].
  rewrite !CanContinue_true_iff.
  destruct (turn_type_ (move_specs_ this)); cbn [Spec.priority Spec.secondary].
  - rewrite !lt_min_iff by assumption.
    intros [[H1 H2] H3]; repeat split; eauto using ltb_leb_trans.
  - rewrite !lt_Min_iff by assumption.
    intros [(H1 & H2 & H3) (H4 & H5 & H6)]; repeat split; eauto using ltb_leb_trans.
  - rewrite !lt_min_iff by assumption.
    intros [[H1 H2] H3]; repeat split; eauto using ltb_leb_trans.
Qed.

Lemma can_continue_monotone_witness :
  can_continue_ (move_status_ (CanContinue 0.8 0.4 0.7 (following RIGHT false false false))) = true /\
  can_continue_ (move_status_ (CanContinue 0.9 0.4 1.5 (following RIGHT false false false))) = true.
Proof.
  split; [reflexivity|].
  apply (can_continue_monotone (following RIGHT false false false) 0.8 0.4 0.7 0.9 0.4 1.5);
    reflexivity.
Defined.

(** ** The wall-proximity test *)

Lemma close_to_wall_right_left (env : Env) (r l c : double) (this : HighLevelControl) :
  is_following_wall_ (move_status_ this) = true ->
  (turn_type_ (move_specs_ this) = RIGHT ->
   IsCloseToWall env r l c this
   = set_is_close_to_wall_ (r <? wall_follow_distance_ (move_specs_ this)) this) /\
  (turn_type_ (move_specs_ this) = LEFT ->
   IsCloseToWall env r l c this
   = set_is_close_to_wall_ (l <? wall_follow_distance_ (move_specs_ this)) this).
Proof.
  intros Hfw. unfold IsCloseToWall. rewrite Hfw.
  split; intros ->; cbv zeta beta iota;
    match goal with |- (if ?b then _ else _) = _ => destruct b end; reflexivity.
Qed.



(** ** The cycle *)

Lemma vec_get_Ok (v : list double) (i : Z) (x : double) :
  vec_get v i = Ok x -> (0 <= i < Z.of_nat (length v))%Z.
Proof.
  unfold vec_get. destruct (i <? 0)%Z eqn:E; [discriminate|].
  destruct (nth_error v (Z.to_nat i)) eqn:N; [|discriminate].
  intros _. apply Z.ltb_ge in E.
  assert (Z.to_nat i < length v)%nat by (apply nth_error_Some; congruence). lia.
Qed.

Lemma vec_get_UB (v : list double) (i : Z) :
  vec_get v i = UB <-> (i < 0 \/ Z.of_nat (length v) <= i)%Z.
Proof.
  unfold vec_get. destruct (i <? 0)%Z eqn:E.
  - apply Z.ltb_lt in E. intuition.
  - apply Z.ltb_ge in E. destruct (nth_error v (Z.to_nat i)) eqn:N.
    + assert (Z.to_nat i < length v)%nat by (apply nth_error_Some; congruence).
      split; [discriminate|lia].
    + apply nth_error_None in N. split; [lia|reflexivity].
Qed.

Section Cycle.

Variable sin : double -> double.
Variable GetMin : list double -> Z -> Z -> result double.

Lemma NormalMovement_fields (env : Env) (ranges : list double) (this mid : HighLevelControl) :
  NormalMovement GetMin env ranges this = Ok mid ->
  move_specs_ mid = move_specs_ this /\
  is_following_wall_ (move_status_ mid) = is_following_wall_ (move_status_ this) /\
  circle_hit_mode_ mid = circle_hit_mode_ this /\
  cmd_vel_pub_ mid = cmd_vel_pub_ this.
Proof.
  unfold NormalMovement.
  destruct (GetMin _ _ _) as [r| |]; try discriminate.
  destruct (GetMin _ _ _) as [l| |]; try discriminate.
  destruct (GetMin _ _ _) as [c| |]; try discriminate.
  cbn [bind]. intros [= <-].
  destruct (IsCloseToWall_fields env r l c (CanContinue r l c this)) as (-> & _ & -> & -> & ->).
  destruct (CanContinue_fields r l c this) as (-> & _ & -> & -> & ->).
  repeat split.
Qed.

Lemma HitCircle_fields (ranges : list double) (this this' : HighLevelControl) :
  HitCircle sin ranges this = Ok this' ->
  move_specs_ this' = move_specs_ this /\
  move_status_ this' = move_status_ this /\
  circle_hit_mode_ this' = circle_hit_mode_ this.
Proof.
  unfold HitCircle.
  destruct (turn_type_ (move_specs_ this)).
  - destruct (vec_get _ _); try discriminate. destruct (vec_get _ _); try discriminate.
    cbn [bind].
    repeat match goal with |- context [if ?b then _ else _] => destruct b end;
      intros [= <-]; repeat split.
  - intros [= <-]; repeat split.
  - destruct (vec_get _ _); try discriminate. destruct (vec_get _ _); try discriminate.
    cbn [bind].
    repeat match goal with |- context [if ?b then _ else _] => destruct b end;
      intros [= <-]; repeat split.
Qed.

(** While [circle_hit_mode_] is false the cycle is the wall-follow path:
    arbiter, clearance evaluation, state machine. *)
Lemma LaserCallback_wall_follow_path (env : Env) (msg : circle_detect_msg)
  (this : HighLevelControl) :
  circle_hit_mode_ this = false ->
  LaserCallback sin GetMin env msg this
  = (wall <- wall_reference (turn_type_ (move_specs_ this)) (msg_ranges msg) ;;
     mid <- NormalMovement GetMin env (msg_ranges msg) (after_arbiter wall msg this) ;;
     Ok (WallFollowMove env mid)).
Proof.
  intros Hhit. unfold LaserCallback. rewrite Hhit. reflexivity.
Qed.

(** Once [circle_hit_mode_] is true the cycle is [HitCircle]. *)
Lemma LaserCallback_hit_path (env : Env) (msg : circle_detect_msg) (this : HighLevelControl) :
  circle_hit_mode_ this = true ->
  LaserCallback sin GetMin env msg this = HitCircle sin (msg_ranges msg) this.
Proof.
  intros Hhit. unfold LaserCallback. now rewrite Hhit.
Qed.

Lemma after_arbiter_hit_mode (wall : double) (msg : circle_detect_msg)
  (this : HighLevelControl) :
  circle_hit_mode_ this = false ->
  circle_hit_mode_ (after_arbiter wall msg this)
  = (wall * wall >? msg_circle_x msg * msg_circle_x msg + msg_circle_y msg * msg_circle_y msg + 0.5)
    && (msg_circle_x msg >? -0.5) && (msg_circle_x msg <? 0.5) && (msg_circle_y msg <? 1).
Proof.
  intros Hhit. unfold after_arbiter. cbn [set_circle circle_x circle_y].
  match goal with |- context [if ?b then _ else _] => destruct b end; cbn; auto.
Qed.

(** The wall-follow cycle returns whenever its reads are in range and
    [GetMin] returns on the three configured windows. *)
Lemma LaserCallback_returns (env : Env) (msg : circle_detect_msg) (this : HighLevelControl)
  (wall r l c : double) :
  circle_hit_mode_ this = false ->
  wall_reference (turn_type_ (move_specs_ this)) (msg_ranges msg) = Ok wall ->
  GetMin (msg_ranges msg) (low_lim_ (right_range_ (move_specs_ this)))
    (high_lim_ (right_range_ (move_specs_ this))) = Ok r ->
  GetMin (msg_ranges msg) (low_lim_ (left_range_ (move_specs_ this)))
    (high_lim_ (left_range_ (move_specs_ this))) = Ok l ->
  GetMin (msg_ranges msg) (low_lim_ (center_range_ (move_specs_ this)))
    (high_lim_ (center_range_ (move_specs_ this))) = Ok c ->
  exists this', LaserCallback sin GetMin env msg this = Ok this'.
Proof.
  intros Hhit Hwall Hr Hl Hc.
  rewrite LaserCallback_wall_follow_path, Hwall by assumption. cbn [bind].
  unfold NormalMovement.
  assert (Hs : move_specs_ (after_arbiter wall msg this) = move_specs_ this).
  { unfold after_arbiter. cbv zeta.
    match goal with |- context [if ?b then _ else _] => destruct b end; reflexivity. }
  rewrite Hs, Hr, Hl, Hc. cbn [bind]. eauto.
Qed.

(** C2. Mode-switch condition: in a cycle that starts with
    [circle_hit_mode_] false, with wall = ranges[380] for RIGHT,
    ranges[340] for LEFT and 1.0 otherwise, and
    threshold = circleX^2 + circleY^2 + 0.5, the flag is true after the
    cycle iff wall^2 > threshold, -0.5 < circleX < 0.5 and circleY < 1. *)
Theorem mode_switch_condition (env : Env) (msg : circle_detect_msg)
  (this this' : HighLevelControl) (wall : double) :
  let x := msg_circle_x msg in
  let y := msg_circle_y msg in
  let threshold := x * x + y * y + 0.5 in
  circle_hit_mode_ this = false ->
  wall_reference (turn_type_ (move_specs_ this)) (msg_ranges msg) = Ok wall ->
  LaserCallback sin GetMin env msg this = Ok this' ->
  circle_hit_mode_ this' = true <->
  (wall * wall >? threshold) = true /\ (-0.5 <? x) = true /\ (x <? 0.5) = true /\
  (y <? 1) = true.
Proof.
  intros x y threshold Hhit Hwall Hcb. subst x y threshold.
  rewrite LaserCallback_wall_follow_path, Hwall in Hcb by assumption. cbn [bind] in Hcb.
  destruct (NormalMovement _ _ _ _) as [mid| |] eqn:Hnm; try discriminate.
  cbn [bind] in Hcb. injection Hcb as <-.
  rewrite WallFollowMove_hit_mode.
  destruct (NormalMovement_fields _ _ _ _ Hnm) as (_ & _ & -> & _).
  rewrite after_arbiter_hit_mode by assumption.
  rewrite !andb_true_iff. tauto.
Qed.

End Cycle.

(** Scenario F: circle at (0, 0.5), turning RIGHT, ranges[380] = 2. *)
Lemma mode_switch_condition_witness :
  exists this',
    LaserCallback sin60 GetMin_model env0 (mkMsg (frame 720 2) 0 0.5)
      (following RIGHT true false false) = Ok this' /\
    circle_hit_mode_ this' = true.
Proof.
  eexists. split; [vm_compute; reflexivity|].
  apply (mode_switch_condition sin60 GetMin_model env0 (mkMsg (frame 720 2) 0 0.5)
           (following RIGHT true false false) _ 2); try reflexivity.
  repeat split.
Defined.

(** ** The circle-approach controller *)

Section Approach.

Variable sin : double -> double.
Variable GetMin : list double -> Z -> Z -> result double.

(** C4. Target-approach control: in a cycle that starts with
    [circle_hit_mode_] true and the turn direction RIGHT (resp. LEFT), with
    back = ranges[right low limit] and front = ranges[90] (resp.
    back = ranges[left high limit] and front = ranges[630]) and
    diff = front - sin(PI/3) * back: the cycle publishes
    (linearVelocity, 0) when -0.05 <= diff <= 0.05, the two bounds
    included; (0, -sign * angularVelocity / 4) when diff > 0.05; and
    (0, sign * angularVelocity / 4) when diff < -0.05. *)
Theorem target_approach_control (env : Env) (msg : circle_detect_msg)
  (this : HighLevelControl) (back front : double) :
  let specs := move_specs_ this in
  let ranges := msg_ranges msg in
  let diff := front - sin (PI / 3.0) * back in
  let s := sign (turn_type_ specs) in
  circle_hit_mode_ this = true ->
  (turn_type_ specs = RIGHT /\
   vec_get ranges (low_lim_ (right_range_ specs)) = Ok back /\
   vec_get ranges 90 = Ok front) \/
  (turn_type_ specs = LEFT /\
   vec_get ranges (high_lim_ (left_range_ specs)) = Ok back /\
   vec_get ranges 630 = Ok front) ->
  ((-0.05 <=? diff) = true -> (diff <=? 0.05) = true ->
   LaserCallback sin GetMin env msg this
   = Ok (publish (mkTwist (linear_velocity_ specs) 0) this)) /\
  (diff = 0.05 \/ diff = -0.05 ->
   LaserCallback sin GetMin env msg this
   = Ok (publish (mkTwist (linear_velocity_ specs) 0) this)) /\
  ((diff >? 0.05) = true ->
   LaserCallback sin GetMin env msg this
   = Ok (publish (mkTwist 0 (double_of_int (- s) * angular_velocity_ specs / 4)) this)) /\
  ((diff <? -0.05) = true ->
   LaserCallback sin GetMin env msg this
   = Ok (publish (mkTwist 0 (double_of_int s * angular_velocity_ specs / 4)) this)).
Proof.
  intros specs ranges diff s Hhit Hside. subst specs ranges s.
  rewrite LaserCallback_hit_path by assumption.
  assert (Hcode : HitCircle sin (msg_ranges msg) this =
    if (diff <=? 0.05) && (diff >=? -0.05) then
      Ok (publish (mkTwist (linear_velocity_ (move_specs_ this)) 0) this)
    else if diff >? 0.05 then
      Ok (publish (mkTwist 0 (double_of_int (- sign (turn_type_ (move_specs_ this)))
                              * angular_velocity_ (move_specs_ this) / 4)) this)
    else
      Ok (publish (mkTwist 0 (double_of_int (sign (turn_type_ (move_specs_ this)))
                              * angular_velocity_ (move_specs_ this) / 4)) this)).
  { unfold HitCircle, Move; cbv zeta.
    rewrite opp_sign_is_turn_minus_one, sign_is_turn_minus_one.
    destruct Hside as [(-> & -> & ->)|(-> & -> & ->)]; reflexivity. }
  rewrite Hcode. clear Hcode Hside.
  assert (Haligned : (-0.05 <=? diff) = true -> (diff <=? 0.05) = true ->
                     (diff <=? 0.05) && (diff >=? -0.05) = true).
  { now intros -> ->. }
  repeat split.
  - intros H1 H2. now rewrite Haligned.
  - intros [->| ->]; reflexivity.
  - intros H. rewrite (ltb_leb_false _ _ H), H. reflexivity.
  - intros H. rewrite (ltb_leb_false _ _ H), andb_false_r.
    destruct (diff >? 0.05) eqn:E; [|reflexivity].
    pose proof (ltb_trans _ _ _ E H) as Habs. discriminate Habs.
Qed.

End Approach.

(** Scenario E: RIGHT, front = 0.9, back = 1.0, hence diff about 0.034. *)
Lemma target_approach_control_witness :
  LaserCallback sin60 GetMin_model env0 (mkMsg frameE 0 0.5) (following RIGHT true false true)
  = Ok (publish (mkTwist 0.2 0) (following RIGHT true false true)).
Proof.
  destruct (target_approach_control sin60 GetMin_model env0 (mkMsg frameE 0 0.5)
              (following RIGHT true false true) 1 0.9 eq_refl
              (or_introl (conj eq_refl (conj eq_refl eq_refl)))) as (H & _).
  exact (H eq_refl eq_refl).
Defined.

(** ** Runs *)

Section Runs.

Variable sin : double -> double.
Variable GetMin : list double -> Z -> Z -> result double.

(** No cycle clears the flag. *)
Lemma LaserCallback_keeps_hit_mode (env : Env) (msg : circle_detect_msg)
  (this this' : HighLevelControl) :
  circle_hit_mode_ this = true ->
  LaserCallback sin GetMin env msg this = Ok this' ->
  circle_hit_mode_ this' = true.
Proof.
  intros Hhit. rewrite LaserCallback_hit_path by assumption. intros H.
  apply HitCircle_fields in H as (_ & _ & ->). assumption.
Qed.

Lemma run_keeps_hit_mode (inputs : list (Env * circle_detect_msg)) :
  forall this, circle_hit_mode_ this = true ->
  Forall (fun st => circle_hit_mode_ st = true) (run sin GetMin this inputs).
Proof.
  induction inputs as [|[env msg] rest IH]; intros this Hhit; cbn [run]; [constructor|].
  destruct (LaserCallback sin GetMin env msg this) as [this'| |] eqn:E; constructor.
  - eapply LaserCallback_keeps_hit_mode; eassumption.
  - apply IH. eapply LaserCallback_keeps_hit_mode; eassumption.
Qed.

(** C5. [circle_hit_mode_] is monotonic: along every run, for every
    sequence of frames and target observations, once the flag is true
    after some cycle it is true after every later cycle. *)
Theorem hit_mode_monotone (inputs : list (Env * circle_detect_msg)) :
  forall (this : HighLevelControl) (i j : nat) (si sj : HighLevelControl),
  (i <= j)%nat ->
  nth_error (run sin GetMin this inputs) i = Some si ->
  nth_error (run sin GetMin this inputs) j = Some sj ->
  circle_hit_mode_ si = true ->
  circle_hit_mode_ sj = true.
Proof.
  induction inputs as [|[env msg] rest IH]; intros this i j si sj Hij Hi Hj Hhit.
  - destruct i; discriminate Hi.
  - cbn [run] in Hi, Hj.
    destruct (LaserCallback sin GetMin env msg this) as [this'| |];
      try (destruct i; discriminate Hi).
    destruct i as [|i], j as [|j]; cbn [nth_error] in Hi, Hj.
    + congruence.
    + injection Hi as ->.
      pose proof (run_keeps_hit_mode rest si Hhit) as Hall.
      rewrite Forall_forall in Hall. apply Hall.
      eapply nth_error_In; eassumption.
    + lia.
    + apply (IH this' i j si sj); [lia|assumption..].
Qed.

(** The flag is written in one place only, and only with [true]: the
    other operations of the controller carry it over. *)
Lemma hit_mode_never_cleared (env : Env) (r l c lin ang : double) (this : HighLevelControl) :
  circle_hit_mode_ (CanContinue r l c this) = circle_hit_mode_ this /\
  circle_hit_mode_ (IsCloseToWall env r l c this) = circle_hit_mode_ this /\
  circle_hit_mode_ (WallFollowMove env this) = circle_hit_mode_ this /\
  circle_hit_mode_ (Move lin ang this) = circle_hit_mode_ this /\
  circle_hit_mode_ (InitialiseMoveStatus this) = circle_hit_mode_ this.
Proof.
  repeat split.
  - apply CanContinue_fields.
  - apply IsCloseToWall_fields.
  - apply WallFollowMove_hit_mode.
Qed.

(** C10. Switching-cycle routing: a cycle that starts with
    [circle_hit_mode_] false and ends with it true is a wall-follow cycle:
    its result is [WallFollowMove] applied to the outcome of
    [NormalMovement], with the flag already set; [HitCircle] produces the
    result of a cycle exactly when the cycle starts with the flag true. *)
Theorem switching_cycle_routing (env : Env) (msg : circle_detect_msg)
  (this this' : HighLevelControl) :
  (circle_hit_mode_ this = false ->
   LaserCallback sin GetMin env msg this = Ok this' ->
   circle_hit_mode_ this' = true ->
   exists wall mid,
     wall_reference (turn_type_ (move_specs_ this)) (msg_ranges msg) = Ok wall /\
     NormalMovement GetMin env (msg_ranges msg)
       (set_circle_hit_mode_ true (set_circle (msg_circle_x msg) (msg_circle_y msg) this))
     = Ok mid /\
     this' = WallFollowMove env mid) /\
  (circle_hit_mode_ this = true ->
   LaserCallback sin GetMin env msg this = HitCircle sin (msg_ranges msg) this).
Proof.
  split; [|apply LaserCallback_hit_path].
  intros Hhit Hcb Hhit'.
  rewrite LaserCallback_wall_follow_path in Hcb by assumption.
  destruct (wall_reference _ _) as [wall| |]; try discriminate. cbn [bind] in Hcb.
  destruct (NormalMovement _ _ _ _) as [mid| |] eqn:Hnm; try discriminate.
  cbn [bind] in Hcb. injection Hcb as <-.
  exists wall, mid. repeat split.
  rewrite WallFollowMove_hit_mode in Hhit'.
  destruct (NormalMovement_fields _ _ _ _ _ Hnm) as (_ & _ & Hmid & _).
  rewrite Hhit' in Hmid. rewrite <- Hnm. f_equal.
  unfold after_arbiter in *. cbv zeta in *.
  match goal with |- context [if ?b then _ else _] => destruct b end; [reflexivity|].
  cbn in Hmid. congruence.
Qed.

(** A cycle that starts in wall-follow mode without a followed wall and
    ends blocked has published nothing: the previous command stays in
    force while the turn direction is drawn. *)
Lemma blocked_cycle_publishes_nothing (env : Env) (msg : circle_detect_msg)
  (this this' : HighLevelControl) :
  circle_hit_mode_ this = false ->
  is_following_wall_ (move_status_ this) = false ->
  LaserCallback sin GetMin env msg this = Ok this' ->
  can_continue_ (move_status_ this') = false ->
  cmd_vel_pub_ this' = cmd_vel_pub_ this /\
  is_following_wall_ (move_status_ this') = true /\
  turn_type_ (move_specs_ this') <> NONE.
Proof.
  intros Hhit Hfw Hcb Hcc.
  rewrite LaserCallback_wall_follow_path in Hcb by assumption.
  destruct (wall_reference _ _) as [wall| |]; try discriminate. cbn [bind] in Hcb.
  destruct (NormalMovement _ _ _ _) as [mid| |] eqn:Hnm; try discriminate.
  cbn [bind] in Hcb. injection Hcb as <-.
  rewrite WallFollowMove_can_continue in Hcc.
  destruct (NormalMovement_fields _ _ _ _ _ Hnm) as (_ & Hfw' & _ & Hpub).
  assert (Hfw0 : is_following_wall_ (move_status_ (after_arbiter wall msg this)) = false).
  { unfold after_arbiter. cbv zeta.
    match goal with |- context [if ?b then _ else _] => destruct b end; exact Hfw. }
  assert (Hpub0 : cmd_vel_pub_ (after_arbiter wall msg this) = cmd_vel_pub_ this).
  { unfold after_arbiter. cbv zeta.
    match goal with |- context [if ?b then _ else _] => destruct b end; reflexivity. }
  rewrite Hfw0 in Hfw'. rewrite Hpub0 in Hpub. rewrite <- Hpub.
  unfold WallFollowMove. rewrite Hcc, Hfw'. cbn [negb andb].
  destruct (Z.rem (rand_value env) 2 =? 0)%Z; cbn; repeat split; discriminate.
Qed.

End Runs.

Lemma hit_mode_monotone_witness :
  exists si sj,
    nth_error (run sin60 GetMin_model hlc0
                 [(env0, cycle_blocked); (env0, cycle_target); (env0, cycle_lost)]) 1 = Some si /\
    nth_error (run sin60 GetMin_model hlc0
                 [(env0, cycle_blocked); (env0, cycle_target); (env0, cycle_lost)]) 2 = Some sj /\
    circle_hit_mode_ si = true /\
    circle_hit_mode_ sj = true.
Proof.
  eexists. eexists.
  split; [vm_compute; reflexivity|].
  split; [vm_compute; reflexivity|].
  split; [reflexivity|].
  eapply (hit_mode_monotone sin60 GetMin_model
            [(env0, cycle_blocked); (env0, cycle_target); (env0, cycle_lost)] hlc0 1 2);
    [lia | vm_compute; reflexivity | vm_compute; reflexivity | reflexivity].
Defined.

(** The flag is false after the first of these cycles: the run does switch. *)
Example run_switches :
  map circle_hit_mode_
    (run sin60 GetMin_model hlc0
       [(env0, cycle_blocked); (env0, cycle_target); (env0, cycle_lost)])
  = [false; true; true].
Proof. vm_compute. reflexivity. Qed.

Lemma switching_cycle_routing_witness :
  exists this' wall mid,
    LaserCallback sin60 GetMin_model env0 cycle_target (following RIGHT true false false)
    = Ok this' /\
    wall_reference RIGHT (msg_ranges cycle_target) = Ok wall /\
    NormalMovement GetMin_model env0 (msg_ranges cycle_target)
      (set_circle_hit_mode_ true (set_circle 0 0.5 (following RIGHT true false false)))
    = Ok mid /\
    this' = WallFollowMove env0 mid.
Proof.
  eexists.
  assert (Hcb : LaserCallback sin60 GetMin_model env0 cycle_target
                  (following RIGHT true false false) = Ok _) by (vm_compute; reflexivity).
  destruct (proj1 (switching_cycle_routing sin60 GetMin_model env0 cycle_target
                     (following RIGHT true false false) _) eq_refl Hcb eq_refl)
    as (wall & mid & H1 & H2 & H3).
  exists wall, mid. repeat split; assumption.
Defined.

(** In the switching cycle the published command is the wall-follow one,
    (0, 0.4); [HitCircle] on the same frame would have published (0, 0.1). *)
Example switching_cycle_command :
  (exists this',
     LaserCallback sin60 GetMin_model env0 cycle_target (following RIGHT true false false)
     = Ok this' /\
     circle_hit_mode_ this' = true /\
     cmd_vel_pub_ this' = [mkTwist 0 0.4]) /\
  (exists this',
     HitCircle sin60 (msg_ranges cycle_target) (following RIGHT true false true) = Ok this' /\
     cmd_vel_pub_ this' = [mkTwist 0 0.1]).
Proof.
  split; eexists; (split; [vm_compute; reflexivity|]); repeat split.
Qed.

(** ** Frames that are too short *)

Section ShortFrames.

Variable sin : double -> double.
Variable GetMin : list double -> Z -> Z -> result double.

(** [HitCircle] returns whenever its two reads are inside the frame. *)
Lemma HitCircle_returns (ranges : list double) (this : HighLevelControl) :
  (turn_type_ (move_specs_ this) = RIGHT ->
   (0 <= low_lim_ (right_range_ (move_specs_ this)) < Z.of_nat (length ranges))%Z /\
   (90 < Z.of_nat (length ranges))%Z) ->
  (turn_type_ (move_specs_ this) = LEFT ->
   (0 <= high_lim_ (left_range_ (move_specs_ this)) < Z.of_nat (length ranges))%Z /\
   (630 < Z.of_nat (length ranges))%Z) ->
  exists this', HitCircle sin ranges this = Ok this'.
Proof.
  intros HR HL. unfold HitCircle.
  assert (Hget : forall i, (0 <= i < Z.of_nat (length ranges))%Z ->
                           exists x, vec_get ranges i = Ok x).
  { intros i Hi. destruct (vec_get ranges i) as [x| |] eqn:E; [eauto| |].
    - unfold vec_get in E. destruct (i <? 0)%Z; [discriminate|].
      destruct (nth_error _ _); discriminate.
    - apply vec_get_UB in E. lia. }
  destruct (turn_type_ (move_specs_ this)); [| eauto |].
  - destruct HR as [H1 H2]; [reflexivity|].
    destruct (Hget _ H1) as [b ->]. destruct (Hget 90%Z) as [f ->]; [lia|]. cbn [bind].
    repeat match goal with |- context [if ?b then _ else _] => destruct b end; eauto.
  - destruct HL as [H1 H2]; [reflexivity|].
    destruct (Hget _ H1) as [b ->]. destruct (Hget 630%Z) as [f ->]; [lia|]. cbn [bind].
    repeat match goal with |- context [if ?b then _ else _] => destruct b end; eauto.
Qed.

(** C7, as the code has it.  The callback indexes the frame with the
    unchecked [operator[]]: when the frame is too short for an index the
    cycle itself reads (380 or 340 for the arbiter; 90, 630 or a window
    limit for [HitCircle]), the cycle is undefined behaviour; it raises no
    error and no state is left for later cycles. *)
Theorem undersized_frame_unchecked (env : Env) (msg : circle_detect_msg)
  (this : HighLevelControl) :
  let specs := move_specs_ this in
  let n := Z.of_nat (length (msg_ranges msg)) in
  (circle_hit_mode_ this = false /\ turn_type_ specs = RIGHT /\ (n <= 380)%Z) \/
  (circle_hit_mode_ this = false /\ turn_type_ specs = LEFT /\ (n <= 340)%Z) \/
  (circle_hit_mode_ this = true /\ turn_type_ specs = RIGHT /\
   (low_lim_ (right_range_ specs) < 0 \/ n <= low_lim_ (right_range_ specs) \/ n <= 90)%Z) \/
  (circle_hit_mode_ this = true /\ turn_type_ specs = LEFT /\
   (high_lim_ (left_range_ specs) < 0 \/ n <= high_lim_ (left_range_ specs) \/ n <= 630)%Z) ->
  LaserCallback sin GetMin env msg this = UB /\
  (forall rest, run sin GetMin this ((env, msg) :: rest) = []).
Proof.
  intros specs n H. subst specs n.
  assert (E : LaserCallback sin GetMin env msg this = UB).
  { destruct H as [(Hh & Ht & Hn)|[(Hh & Ht & Hn)|[(Hh & Ht & Hn)|(Hh & Ht & Hn)]]].
    - rewrite LaserCallback_wall_follow_path, Ht by assumption. cbn [wall_reference].
      replace (vec_get (msg_ranges msg) 380) with (@UB double); [reflexivity|].
      symmetry. apply vec_get_UB. lia.
    - rewrite LaserCallback_wall_follow_path, Ht by assumption. cbn [wall_reference].
      replace (vec_get (msg_ranges msg) 340) with (@UB double); [reflexivity|].
      symmetry. apply vec_get_UB. lia.
    - rewrite LaserCallback_hit_path by assumption. unfold HitCircle. rewrite Ht.
      destruct (vec_get (msg_ranges msg) (low_lim_ (right_range_ (move_specs_ this))))
        as [b| |] eqn:Eb.
      + apply vec_get_Ok in Eb.
        replace (vec_get (msg_ranges msg) 90) with (@UB double); [reflexivity|].
        symmetry. apply vec_get_UB. lia.
      + unfold vec_get in Eb. destruct (_ <? 0)%Z; [discriminate|].
        destruct (nth_error _ _); discriminate.
      + reflexivity.
    - rewrite LaserCallback_hit_path by assumption. unfold HitCircle. rewrite Ht.
      destruct (vec_get (msg_ranges msg) (high_lim_ (left_range_ (move_specs_ this))))
        as [b| |] eqn:Eb.
      + apply vec_get_Ok in Eb.
        replace (vec_get (msg_ranges msg) 630) with (@UB double); [reflexivity|].
        symmetry. apply vec_get_UB. lia.
      + unfold vec_get in Eb. destruct (_ <? 0)%Z; [discriminate|].
        destruct (nth_error _ _); discriminate.
      + reflexivity. }
  split; [assumption|]. intros rest. cbn [run]. now rewrite E.
Qed.

End ShortFrames.

Lemma undersized_frame_unchecked_witness :
  LaserCallback sin60 GetMin_model env0 cycle_short (following RIGHT true false false) = UB /\
  (forall rest,
     run sin60 GetMin_model (following RIGHT true false false) ((env0, cycle_short) :: rest) = []).
Proof.
  apply (undersized_frame_unchecked sin60 GetMin_model env0 cycle_short
           (following RIGHT true false false)).
  left. repeat split. vm_compute. discriminate.
Defined.

(** C7 as stated fails: on a frame of 360 readings while turning RIGHT the
    cycle does not fail with an OutOfRange error, and the cycle that follows
    on a full frame is not processed. *)
Lemma undersized_frame_no_OutOfRange :
  LaserCallback sin60 GetMin_model env0 cycle_short (following RIGHT true false false)
  <> Raise OutOfRange /\
  run sin60 GetMin_model (following RIGHT true false false)
    [(env0, cycle_short); (env0, cycle_target)] = [].
Proof.
  split; [vm_compute; discriminate | vm_compute; reflexivity].
Qed.

(** * Further properties of the controller *)

(** ** More on doubles *)

Lemma unordered_ltb (x y : double) :
  ~ ordered x -> (x <? y) = false /\ (y <? x) = false.
Proof.
  intros Hx. split.
  - destruct (x <? y) eqn:E; [|reflexivity].
    destruct (ltb_ordered _ _ E); contradiction.
  - destruct (y <? x) eqn:E; [|reflexivity].
    destruct (ltb_ordered _ _ E); contradiction.
Qed.

Lemma unordered_leb (x y : double) :
  ~ ordered x -> (x <=? y) = false /\ (y <=? x) = false.
Proof.
  intros Hx. split.
  - destruct (x <=? y) eqn:E; [|reflexivity].
    destruct (leb_ordered _ _ E); contradiction.
  - destruct (y <=? x) eqn:E; [|reflexivity].
    destruct (leb_ordered _ _ E); contradiction.
Qed.

Lemma nan_unordered : ~ ordered nan.
Proof. unfold ordered. discriminate. Qed.

Lemma Prim2SF_one : Prim2SF (double_of_int 1) = S754_finite false 4503599627370496 (-52).
Proof. reflexivity. Qed.

Lemma SFmul_one (y : spec_float) :
  valid_binary y = true ->
  SF64mul (S754_finite false 4503599627370496 (-52)) y = y.
Proof.
  destruct y as [s|s| |s m e]; try reflexivity.
  unfold valid_binary, bounded, canonical_mantissa. intros H.
  apply andb_prop in H as [Hc He]. apply Z.eqb_eq in Hc.
  unfold SF64mul, SFmul, binary_round_aux, shr_fexp, Zdigits2.
  rewrite digits2_shift52.
  replace (Z.pos (digits2_pos m) + 52 + (-52 + e))%Z with (Zpos (digits2_pos m) + e)%Z by lia.
  rewrite Hc.
  replace (e - (-52 + e))%Z with 52%Z by lia.
  change (4503599627370496 * m)%positive with (Pos.iter xO m 52%positive).
  cbn -[fexp Z.leb Z.sub Z.add].
  replace (-52 + e + 52)%Z with e by lia.
  rewrite Hc, Z.sub_diag. cbn -[Z.leb Z.sub].
  rewrite He. reflexivity.
Qed.

Lemma mul_one (a : double) : double_of_int 1 * a = a.
Proof.
  apply Prim2SF_inj. rewrite mul_spec, Prim2SF_one.
  apply SFmul_one, Prim2SF_valid.
Qed.

Lemma opp_involutive (a : double) : - - a = a.
Proof.
  apply Prim2SF_inj. rewrite !opp_spec.
  destruct (Prim2SF a) as [s|s| |s m e]; cbn; now rewrite ?negb_involutive.
Qed.

(** ** Case analyses of the operations *)

Lemma WallFollowMove_cases (env : Env) (this : HighLevelControl) :
  (can_continue_ (move_status_ this) = false /\
   is_following_wall_ (move_status_ this) = false /\
   exists t, t <> NONE /\
     WallFollowMove env this = set_is_following_wall_ true (set_turn_type_ t this)) \/
  ((can_continue_ (move_status_ this) = true \/ is_following_wall_ (move_status_ this) = true) /\
   exists c, (c = mkTwist (linear_velocity_ (move_specs_ this)) 0 \/ linear_x c = 0) /\
     WallFollowMove env this = publish c this).
Proof.
  unfold WallFollowMove, Move.
  destruct (can_continue_ (move_status_ this)), (is_following_wall_ (move_status_ this)),
    (is_close_to_wall_ (move_status_ this)); cbn [negb andb].
  all: try (right; split; [auto|]; eexists; split; [|reflexivity]; auto; fail).
  all: left; repeat split;
    destruct (Z.rem (rand_value env) 2 =? 0)%Z; eexists; (split; [|reflexivity]); discriminate.
Qed.

Lemma IsCloseToWall_cases (env : Env) (r l c : double) (this : HighLevelControl) :
  (is_following_wall_ (move_status_ this) = false /\ IsCloseToWall env r l c this = this) \/
  (is_following_wall_ (move_status_ this) = true /\
   turn_type_ (move_specs_ this) <> NONE /\
   exists b, IsCloseToWall env r l c this = set_is_close_to_wall_ b this) \/
  (is_following_wall_ (move_status_ this) = true /\
   turn_type_ (move_specs_ this) = NONE /\
   exists b, IsCloseToWall env r l c this = set_is_close_to_wall_ b (ros_shutdown this)).
Proof.
  unfold IsCloseToWall.
  destruct (is_following_wall_ (move_status_ this)); [right|left; auto].
  destruct (turn_type_ (move_specs_ this)) eqn:Ht; cbn.
  - left. repeat split; [discriminate|].
    destruct (r <? _); eexists; reflexivity.
  - right. repeat split.
    destruct (stack_min env <? _); eexists; reflexivity.
  - left. repeat split; [discriminate|].
    destruct (l <? _); eexists; reflexivity.
Qed.

Lemma after_arbiter_frame (wall : double) (msg : circle_detect_msg) (this : HighLevelControl) :
  move_specs_ (after_arbiter wall msg this) = move_specs_ this /\
  move_status_ (after_arbiter wall msg this) = move_status_ this /\
  cmd_vel_pub_ (after_arbiter wall msg this) = cmd_vel_pub_ this /\
  ros_shutdown_ (after_arbiter wall msg this) = ros_shutdown_ this /\
  circle_x (after_arbiter wall msg this) = msg_circle_x msg /\
  circle_y (after_arbiter wall msg this) = msg_circle_y msg.
Proof.
  unfold after_arbiter; cbv zeta.
  match goal with |- context [if ?b then _ else _] => destruct b end; repeat split.
Qed.

Lemma WallFollowMove_frame (env : Env) (this : HighLevelControl) :
  config (move_specs_ (WallFollowMove env this)) = config (move_specs_ this) /\
  circle_x (WallFollowMove env this) = circle_x this /\
  circle_y (WallFollowMove env this) = circle_y this /\
  ros_shutdown_ (WallFollowMove env this) = ros_shutdown_ this.
Proof.
  destruct (WallFollowMove_cases env this)
    as [(_ & _ & t & _ & ->)|(_ & c & _ & ->)]; repeat split.
Qed.

Section CycleShape.

Variable sin : double -> double.
Variable GetMin : list double -> Z -> Z -> result double.

Lemma HitCircle_cases (ranges : list double) (this this' : HighLevelControl) :
  HitCircle sin ranges this = Ok this' ->
  (turn_type_ (move_specs_ this) = NONE /\ this' = this) \/
  (turn_type_ (move_specs_ this) <> NONE /\
   exists c, (c = mkTwist (linear_velocity_ (move_specs_ this)) 0 \/ linear_x c = 0) /\
     this' = publish c this).
Proof.
  unfold HitCircle, Move.
  destruct (turn_type_ (move_specs_ this)) eqn:Ht.
  - destruct (vec_get _ _); try discriminate. destruct (vec_get _ _); try discriminate.
    cbn [bind]. right. split; [discriminate|].
    repeat match goal with H : context [if ?b then _ else _] |- _ => destruct b end;
      injection H as <-; eexists; (split; [|reflexivity]); auto.
  - intros [= <-]. auto.
  - destruct (vec_get _ _); try discriminate. destruct (vec_get _ _); try discriminate.
    cbn [bind]. right. split; [discriminate|].
    repeat match goal with H : context [if ?b then _ else _] |- _ => destruct b end;
      injection H as <-; eexists; (split; [|reflexivity]); auto.
Qed.

Lemma NormalMovement_cases (env : Env) (ranges : list double) (this mid : HighLevelControl) :
  NormalMovement GetMin env ranges this = Ok mid ->
  exists r l c, mid = IsCloseToWall env r l c (CanContinue r l c this).
Proof.
  unfold NormalMovement.
  destruct (GetMin _ _ _) as [r| |]; try discriminate.
  destruct (GetMin _ _ _) as [l| |]; try discriminate.
  destruct (GetMin _ _ _) as [c| |]; try discriminate.
  cbn [bind]. intros [= <-]. eauto.
Qed.

Lemma NormalMovement_frame (env : Env) (ranges : list double) (this mid : HighLevelControl) :
  NormalMovement GetMin env ranges this = Ok mid ->
  move_specs_ mid = move_specs_ this /\
  is_following_wall_ (move_status_ mid) = is_following_wall_ (move_status_ this) /\
  cmd_vel_pub_ mid = cmd_vel_pub_ this /\
  circle_x mid = circle_x this /\
  circle_y mid = circle_y this /\
  circle_hit_mode_ mid = circle_hit_mode_ this /\
  (wall_side_chosen this -> ros_shutdown_ mid = ros_shutdown_ this).
Proof.
  intros H. apply NormalMovement_cases in H as (r & l & c & ->).
  rewrite CanContinue_eval.
  set (a := set_can_continue_ _ this).
  destruct (IsCloseToWall_cases env r l c a)
    as [(_ & ->)|[(_ & _ & b & ->)|(Hfw & Ht & b & ->)]];
    repeat split; intros Hside; try reflexivity.
  exfalso. now apply Hside.
Qed.

(** What a returning cycle is made of. *)
Lemma LaserCallback_cases (env : Env) (msg : circle_detect_msg) (this this' : HighLevelControl) :
  LaserCallback sin GetMin env msg this = Ok this' ->
  (circle_hit_mode_ this = true /\ HitCircle sin (msg_ranges msg) this = Ok this') \/
  (circle_hit_mode_ this = false /\
   exists wall mid,
     wall_reference (turn_type_ (move_specs_ this)) (msg_ranges msg) = Ok wall /\
     NormalMovement GetMin env (msg_ranges msg) (after_arbiter wall msg this) = Ok mid /\
     this' = WallFollowMove env mid).
Proof.
  destruct (circle_hit_mode_ this) eqn:Hhit; intros H.
  - left. rewrite LaserCallback_hit_path in H by assumption. auto.
  - right. split; [reflexivity|].
    rewrite LaserCallback_wall_follow_path in H by assumption.
    destruct (wall_reference _ _) as [wall| |]; try discriminate. cbn [bind] in H.
    destruct (NormalMovement _ _ _ _) as [mid| |] eqn:Hnm; try discriminate.
    cbn [bind] in H. injection H as <-. eauto.
Qed.

(** The state in the middle of a wall-follow cycle, against the state the
    cycle started from. *)
Lemma wall_follow_mid (env : Env) (msg : circle_detect_msg) (wall : double)
  (this mid : HighLevelControl) :
  NormalMovement GetMin env (msg_ranges msg) (after_arbiter wall msg this) = Ok mid ->
  move_specs_ mid = move_specs_ this /\
  is_following_wall_ (move_status_ mid) = is_following_wall_ (move_status_ this) /\
  cmd_vel_pub_ mid = cmd_vel_pub_ this /\
  circle_x mid = msg_circle_x msg /\
  circle_y mid = msg_circle_y msg /\
  (wall_side_chosen this -> ros_shutdown_ mid = ros_shutdown_ this).
Proof.
  intros H. apply NormalMovement_frame in H as (Hs & Hf & Hp & Hx & Hy & _ & Hsd).
  destruct (after_arbiter_frame wall msg this) as (Hs' & Hst' & Hp' & Hsd' & Hx' & Hy').
  rewrite Hs, Hf, Hp, Hx, Hy, Hs', Hst', Hp', Hx', Hy'. repeat split.
  intros Hside. rewrite Hsd, Hsd'; [reflexivity|].
  unfold wall_side_chosen. now rewrite Hs', Hst'.
Qed.

(** Invariants of the cycle are invariants of runs. *)
Lemma run_invariant (I : HighLevelControl -> Prop) :
  (forall env msg s s', I s -> LaserCallback sin GetMin env msg s = Ok s' -> I s') ->
  forall inputs this, I this -> Forall I (run sin GetMin this inputs).
Proof.
  intros Hstep. induction inputs as [|[env msg] rest IH]; intros this HI; cbn [run].
  - constructor.
  - destruct (LaserCallback sin GetMin env msg this) as [this'| |] eqn:E; constructor.
    + eapply Hstep; eassumption.
    + apply IH. eapply Hstep; eassumption.
Qed.

End CycleShape.

(** ** Invariants of runs *)

Section RunInvariants.

Variable sin : double -> double.
Variable GetMin : list double -> Z -> Z -> result double.

Lemma cycle_keeps_side (env : Env) (msg : circle_detect_msg) (this this' : HighLevelControl) :
  wall_side_chosen this ->
  LaserCallback sin GetMin env msg this = Ok this' ->
  wall_side_chosen this' /\ ros_shutdown_ this' = ros_shutdown_ this.
Proof.
  intros Hside H.
  apply LaserCallback_cases in H as [(_ & H)|(_ & wall & mid & _ & Hnm & ->)].
  - apply HitCircle_cases in H as [(_ & ->)|(_ & c & _ & ->)]; split; auto.
  - apply wall_follow_mid in Hnm as (Hs & Hf & _ & _ & _ & Hsd).
    destruct (WallFollowMove_frame env mid) as (_ & _ & _ & ->).
    split; [|auto].
    destruct (WallFollowMove_cases env mid)
      as [(_ & _ & t & Ht & ->)|(_ & c & _ & ->)].
    + intros _. exact Ht.
    + unfold wall_side_chosen in *. cbn. rewrite Hs, Hf. exact Hside.
Qed.

Lemma cycle_keeps_following (env : Env) (msg : circle_detect_msg)
  (this this' : HighLevelControl) :
  is_following_wall_ (move_status_ this) = true ->
  LaserCallback sin GetMin env msg this = Ok this' ->
  is_following_wall_ (move_status_ this') = true /\
  turn_type_ (move_specs_ this') = turn_type_ (move_specs_ this).
Proof.
  intros Hfw H.
  apply LaserCallback_cases in H as [(_ & H)|(_ & wall & mid & _ & Hnm & ->)].
  - apply HitCircle_cases in H as [(_ & ->)|(_ & c & _ & ->)]; split; auto.
  - apply wall_follow_mid in Hnm as (Hs & Hf & _).
    rewrite Hfw in Hf.
    destruct (WallFollowMove_cases env mid)
      as [(_ & Hno & _)|(_ & c & _ & ->)]; [congruence|].
    cbn. now rewrite Hs.
Qed.

Lemma cycle_keeps_config (env : Env) (msg : circle_detect_msg) (this this' : HighLevelControl) :
  LaserCallback sin GetMin env msg this = Ok this' ->
  config (move_specs_ this') = config (move_specs_ this).
Proof.
  intros H.
  apply LaserCallback_cases in H as [(_ & H)|(_ & wall & mid & _ & Hnm & ->)].
  - apply HitCircle_cases in H as [(_ & ->)|(_ & c & _ & ->)]; reflexivity.
  - apply wall_follow_mid in Hnm as (Hs & _).
    destruct (WallFollowMove_frame env mid) as (-> & _). now rewrite Hs.
Qed.

(** X1. The side of a followed wall is always chosen: if the turn type is
    LEFT or RIGHT whenever [is_following_wall_] holds, this is so after
    every cycle of every run. *)
Theorem wall_side_chosen_invariant (inputs : list (Env * circle_detect_msg))
  (this : HighLevelControl) :
  wall_side_chosen this ->
  Forall wall_side_chosen (run sin GetMin this inputs).
Proof.
  apply run_invariant. intros env msg s s' Hs H.
  eapply cycle_keeps_side; eassumption.
Qed.

(** X2. No cycle of a constructed controller calls [ros::shutdown()]: along
    every run that starts from the constructor's result, whatever the
    parameter server and the frames, the shutdown flag stays as the
    constructor left it.  The NONE branch of [IsCloseToWall] is never run. *)
Theorem constructed_run_never_shuts_down (node_ : NodeHandle) (pre : HighLevelControl)
  (inputs : list (Env * circle_detect_msg)) :
  Forall (fun st => ros_shutdown_ st = ros_shutdown_ (HighLevelControl_ctor node_ pre))
    (run sin GetMin (HighLevelControl_ctor node_ pre) inputs).
Proof.
  set (this := HighLevelControl_ctor node_ pre).
  assert (Hthis : wall_side_chosen this) by (intros Hfw; discriminate Hfw).
  assert (H : Forall (fun st => wall_side_chosen st /\ ros_shutdown_ st = ros_shutdown_ this)
                (run sin GetMin this inputs)).
  { apply run_invariant; [|now split].
    intros env msg s s' [Hs Hsd] Hcb.
    destruct (cycle_keeps_side env msg s s' Hs Hcb) as [Hs' Hsd'].
    split; [exact Hs'|]. now rewrite Hsd'. }
  eapply Forall_impl; [|exact H]. now intros st [_ Hst].
Qed.

(** X3. A wall-follow episode never ends and never changes side: once
    [is_following_wall_] is true it is true after every later cycle, and
    the turn type stays the one the episode started with. *)
Theorem following_wall_is_permanent (inputs : list (Env * circle_detect_msg))
  (this : HighLevelControl) :
  is_following_wall_ (move_status_ this) = true ->
  Forall (fun st => is_following_wall_ (move_status_ st) = true /\
                    turn_type_ (move_specs_ st) = turn_type_ (move_specs_ this))
    (run sin GetMin this inputs).
Proof.
  intros Hfw. apply run_invariant; [|now split].
  intros env msg s s' [Hs Ht] Hcb.
  destruct (cycle_keeps_following env msg s s' Hs Hcb) as [Hs' Ht']. split; congruence.
Qed.

(** X4. The configuration is read-only for the cycles: distances,
    velocities and sector windows are the same after every cycle of every
    run; of the move specs only the turn type is ever written. *)
Theorem configuration_is_immutable (inputs : list (Env * circle_detect_msg))
  (this : HighLevelControl) :
  Forall (fun st => config (move_specs_ st) = config (move_specs_ this))
    (run sin GetMin this inputs).
Proof.
  apply run_invariant; [|reflexivity].
  intros env msg s s' Hs Hcb. rewrite <- Hs. eapply cycle_keeps_config; eassumption.
Qed.

(** X5. A cycle publishes at most one command and keeps the earlier ones;
    the command is either straight ahead at the configured linear velocity,
    (linearVelocity, 0), or a turn on the spot, (0, w): the controller never
    asks for translation and rotation together. *)
Theorem cycle_publishes_at_most_one (env : Env) (msg : circle_detect_msg)
  (this this' : HighLevelControl) :
  LaserCallback sin GetMin env msg this = Ok this' ->
  cmd_vel_pub_ this' = cmd_vel_pub_ this \/
  exists c,
    cmd_vel_pub_ this' = c :: cmd_vel_pub_ this /\
    (c = mkTwist (linear_velocity_ (move_specs_ this)) 0 \/ linear_x c = 0).
Proof.
  intros H.
  apply LaserCallback_cases in H as [(_ & H)|(_ & wall & mid & _ & Hnm & ->)].
  - apply HitCircle_cases in H as [(_ & ->)|(_ & c & Hc & ->)]; [now left|].
    right. exists c. now split.
  - apply wall_follow_mid in Hnm as (Hs & _ & Hp & _).
    destruct (WallFollowMove_cases env mid)
      as [(_ & _ & t & _ & ->)|(_ & c & Hc & ->)].
    + left. exact Hp.
    + right. exists c. cbn. rewrite Hp, <- Hs. now split.
Qed.

(** X6. Once a wall is followed on a chosen side, every cycle that returns
    publishes exactly one command, in wall-follow mode and in hit mode. *)
Theorem following_cycle_publishes_one (env : Env) (msg : circle_detect_msg)
  (this this' : HighLevelControl) :
  is_following_wall_ (move_status_ this) = true ->
  turn_type_ (move_specs_ this) <> NONE ->
  LaserCallback sin GetMin env msg this = Ok this' ->
  exists c, cmd_vel_pub_ this' = c :: cmd_vel_pub_ this.
Proof.
  intros Hfw Ht H.
  apply LaserCallback_cases in H as [(_ & H)|(_ & wall & mid & _ & Hnm & ->)].
  - apply HitCircle_cases in H as [(Hn & _)|(_ & c & _ & ->)]; [contradiction|].
    now exists c.
  - apply wall_follow_mid in Hnm as (_ & Hf & Hp & _). rewrite Hfw in Hf.
    destruct (WallFollowMove_cases env mid)
      as [(_ & Hno & _)|(_ & c & _ & ->)]; [congruence|].
    exists c. cbn. now rewrite Hp.
Qed.

(** X7. Hit mode entered before any side was chosen is inert: with
    [circle_hit_mode_] true and the turn type NONE every cycle returns, and
    leaves the controller exactly as it was; no command is ever published
    again, whatever the frames and the targets. *)
Theorem hit_mode_without_side_is_inert (inputs : list (Env * circle_detect_msg))
  (this : HighLevelControl) :
  circle_hit_mode_ this = true ->
  turn_type_ (move_specs_ this) = NONE ->
  run sin GetMin this inputs = repeat this (length inputs).
Proof.
  intros Hhit Ht. induction inputs as [|[env msg] rest IH]; [reflexivity|].
  cbn [run length repeat].
  rewrite LaserCallback_hit_path by assumption.
  unfold HitCircle. rewrite Ht. now rewrite IH.
Qed.

(** X8. The target observation is recorded in every wall-follow cycle and
    frozen in hit mode: a cycle that starts with [circle_hit_mode_] false
    stores the message's coordinates, one that starts with it true leaves
    the stored coordinates alone. *)
Theorem target_recorded_then_frozen (env : Env) (msg : circle_detect_msg)
  (this this' : HighLevelControl) :
  LaserCallback sin GetMin env msg this = Ok this' ->
  (circle_hit_mode_ this = false ->
   circle_x this' = msg_circle_x msg /\ circle_y this' = msg_circle_y msg) /\
  (circle_hit_mode_ this = true ->
   circle_x this' = circle_x this /\ circle_y this' = circle_y this).
Proof.
  intros H.
  apply LaserCallback_cases in H as [(Hhit & H)|(Hhit & wall & mid & _ & Hnm & ->)];
    (split; intros Hh; [|]); try congruence.
  - apply HitCircle_cases in H as [(_ & ->)|(_ & c & _ & ->)]; now split.
  - apply wall_follow_mid in Hnm as (_ & _ & _ & Hx & Hy & _).
    destruct (WallFollowMove_frame env mid) as (_ & -> & -> & _). now split.
Qed.

(** X9. Without a target near the axis there is no switch: along a run
    that starts with [circle_hit_mode_] false and whose observations all
    fail [circle_x > -0.5] (the absent-target sentinel -10 does), the flag
    is false after every cycle. *)
Theorem no_target_no_switch (inputs : list (Env * circle_detect_msg)) :
  forall this : HighLevelControl,
  circle_hit_mode_ this = false ->
  Forall (fun i => (msg_circle_x (snd i) >? -0.5) = false) inputs ->
  Forall (fun st => circle_hit_mode_ st = false) (run sin GetMin this inputs).
Proof.
  induction inputs as [|[env msg] rest IH]; intros this Hhit Hall; cbn [run]; [constructor|].
  inversion Hall as [|i l Hx Hrest]; subst. cbn [snd] in Hx.
  destruct (LaserCallback sin GetMin env msg this) as [this'| |] eqn:E; [|constructor..].
  assert (Hhit' : circle_hit_mode_ this' = false).
  { apply LaserCallback_cases in E as [(Hh & _)|(_ & wall & mid & _ & Hnm & ->)];
      [congruence|].
    rewrite WallFollowMove_hit_mode.
    apply NormalMovement_frame in Hnm as (_ & _ & _ & _ & _ & -> & _).
    rewrite after_arbiter_hit_mode by assumption.
    rewrite Hx. now rewrite andb_false_r. }
  constructor; [assumption|]. now apply IH.
Qed.

End RunInvariants.

(** ** The state machine and the policies at their edges *)

(** X10. The decision table is exhaustive: [WallFollowMove] stays silent
    exactly in the blocked-and-not-following case; in every other status,
    for every turn type, it publishes one command. *)
Theorem WallFollowMove_silent_iff (env : Env) (this : HighLevelControl) :
  (cmd_vel_pub_ (WallFollowMove env this) = cmd_vel_pub_ this <->
   can_continue_ (move_status_ this) = false /\
   is_following_wall_ (move_status_ this) = false) /\
  (cmd_vel_pub_ (WallFollowMove env this) = cmd_vel_pub_ this \/
   exists c, cmd_vel_pub_ (WallFollowMove env this) = c :: cmd_vel_pub_ this).
Proof.
  destruct (WallFollowMove_cases env this)
    as [(Hcc & Hfw & t & _ & ->)|(Hor & c & _ & ->)]; cbn.
  - split; [|now left]. split; auto.
  - split; [|right; now exists c]. split.
    + intros Habs. exfalso.
      apply (f_equal (@length Twist)) in Habs. cbn in Habs. lia.
    + intros [Hcc Hfw]. destruct Hor; congruence.
Qed.

(** X11. The two turns of a wall-follow episode are exact opposites at the
    full angular velocity, and LEFT mirrors RIGHT: blocked, the command is
    (0, -w) for RIGHT and (0, w) for LEFT; free but away from the wall, it
    is (0, w) for RIGHT and (0, -w) for LEFT, with w = angularVelocity and
    no rounding. *)
Theorem wall_follow_turns_are_opposite (env : Env) (this : HighLevelControl) :
  is_following_wall_ (move_status_ this) = true ->
  (turn_type_ (move_specs_ this) = RIGHT ->
   (can_continue_ (move_status_ this) = false ->
    WallFollowMove env this
    = publish (mkTwist 0 (- angular_velocity_ (move_specs_ this))) this) /\
   (can_continue_ (move_status_ this) = true ->
    is_close_to_wall_ (move_status_ this) = false ->
    WallFollowMove env this
    = publish (mkTwist 0 (angular_velocity_ (move_specs_ this))) this)) /\
  (turn_type_ (move_specs_ this) = LEFT ->
   (can_continue_ (move_status_ this) = false ->
    WallFollowMove env this
    = publish (mkTwist 0 (angular_velocity_ (move_specs_ this))) this) /\
   (can_continue_ (move_status_ this) = true ->
    is_close_to_wall_ (move_status_ this) = false ->
    WallFollowMove env this
    = publish (mkTwist 0 (- angular_velocity_ (move_specs_ this))) this)).
Proof.
  intros Hfw. unfold WallFollowMove, Move; cbv zeta. rewrite Hfw.
  split; intros Ht; rewrite Ht; cbn [TurnType_to_int Z.sub Z.add Z.opp Z.mul Z.pos_sub
                                       Pos.mul Z.succ_double Z.pred_double Z.double];
    split; intros; repeat match goal with H : _ = true |- _ => rewrite H
                                  | H : _ = false |- _ => rewrite H end;
    cbn [negb andb]; rewrite ?mul_minus_one, ?mul_one; reflexivity.
Qed.

(** X12. NaN in the clearance policy.  When following a wall, a NaN centre
    minimum is skipped: clearance is then decided by the followed side and
    the far side alone.  A NaN minimum on the followed side, or on the far
    side, blocks. *)
Theorem nan_in_clearance (r l c : double) (this : HighLevelControl) :
  let specs := move_specs_ this in
  let can_continue := can_continue_ (move_status_ (CanContinue r l c this)) in
  (turn_type_ specs = RIGHT ->
   (~ ordered c ->
    can_continue = true <->
    (r >? high_security_distance_ specs) = true /\
    (l >? low_security_distance_ specs) = true) /\
   (~ ordered r \/ ~ ordered l -> can_continue = false)) /\
  (turn_type_ specs = LEFT ->
   (~ ordered c ->
    can_continue = true <->
    (l >? high_security_distance_ specs) = true /\
    (r >? low_security_distance_ specs) = true) /\
   (~ ordered l \/ ~ ordered r -> can_continue = false)).
Proof.
  cbv zeta.
  assert (Hskip : forall a b, ~ ordered a -> Spec.min a b = b).
  { intros a b Ha. unfold Spec.min. now destruct (unordered_ltb a b Ha) as [-> _]. }
  assert (Hside : forall a b, ~ ordered b -> Spec.min a b = b).
  { intros a b Hb. unfold Spec.min. now destruct (unordered_ltb b a Hb) as [_ ->]. }
  assert (Hfalse : forall b : bool, ~ (b = true) -> b = false) by (intros []; congruence).
  split; intros Ht; (split; [intros Hc|intros Hrl]).
  - rewrite CanContinue_true_iff, Ht. cbn [Spec.priority Spec.secondary].
    now rewrite Hskip.
  - apply Hfalse. rewrite CanContinue_true_iff, Ht. cbn [Spec.priority Spec.secondary].
    intros [H1 H2]. destruct Hrl as [Hr|Hl].
    + rewrite Hside in H1 by assumption.
      destruct (unordered_ltb r (high_security_distance_ (move_specs_ this)) Hr). congruence.
    + destruct (unordered_ltb l (low_security_distance_ (move_specs_ this)) Hl). congruence.
  - rewrite CanContinue_true_iff, Ht. cbn [Spec.priority Spec.secondary].
    now rewrite Hskip.
  - apply Hfalse. rewrite CanContinue_true_iff, Ht. cbn [Spec.priority Spec.secondary].
    intros [H1 H2]. destruct Hrl as [Hl|Hr].
    + rewrite Hside in H1 by assumption.
      destruct (unordered_ltb l (high_security_distance_ (move_specs_ this)) Hl). congruence.
    + destruct (unordered_ltb r (low_security_distance_ (move_specs_ this)) Hr). congruence.
Qed.

(** X13. NaN on the followed side reads as "not close": when following a
    wall on a chosen side, a NaN minimum on that side clears
    [is_close_to_wall_]. *)
Theorem nan_side_is_not_close (env : Env) (r l c : double) (this : HighLevelControl) :
  is_following_wall_ (move_status_ this) = true ->
  (turn_type_ (move_specs_ this) = RIGHT /\ ~ ordered r) \/
  (turn_type_ (move_specs_ this) = LEFT /\ ~ ordered l) ->
  IsCloseToWall env r l c this = set_is_close_to_wall_ false this.
Proof.
  intros Hfw Hnan.
  destruct (close_to_wall_right_left env r l c this Hfw) as [HR HL].
  destruct Hnan as [[Ht Hr]|[Ht Hl]].
  - rewrite (HR Ht).
    now destruct (unordered_ltb r (wall_follow_distance_ (move_specs_ this)) Hr) as [-> _].
  - rewrite (HL Ht).
    now destruct (unordered_ltb l (wall_follow_distance_ (move_specs_ this)) Hl) as [-> _].
Qed.

Section Bounds.

Variable sin : double -> double.
Variable GetMin : list double -> Z -> Z -> result double.

(** X14. NaN in the approach controller: when the alignment error [diff]
    is NaN (a NaN reading at either bearing), the cycle takes the last
    branch and publishes the turn (0, sign * angularVelocity / 4). *)
Theorem nan_diff_takes_last_branch (env : Env) (msg : circle_detect_msg)
  (this : HighLevelControl) (back front : double) :
  let specs := move_specs_ this in
  let ranges := msg_ranges msg in
  let diff := front - sin (PI / 3.0) * back in
  circle_hit_mode_ this = true ->
  (turn_type_ specs = RIGHT /\
   vec_get ranges (low_lim_ (right_range_ specs)) = Ok back /\
   vec_get ranges 90 = Ok front) \/
  (turn_type_ specs = LEFT /\
   vec_get ranges (high_lim_ (left_range_ specs)) = Ok back /\
   vec_get ranges 630 = Ok front) ->
  ~ ordered diff ->
  LaserCallback sin GetMin env msg this
  = Ok (publish (mkTwist 0 (double_of_int (sign (turn_type_ specs))
                            * angular_velocity_ specs / 4)) this).
Proof.
  intros specs ranges diff Hhit Hside Hnan. subst specs ranges.
  rewrite LaserCallback_hit_path by assumption.
  destruct (unordered_leb diff 0.05 Hnan) as [H1 _].
  destruct (unordered_ltb diff 0.05 Hnan) as [_ H2].
  unfold HitCircle, Move; cbv zeta.
  rewrite sign_is_turn_minus_one.
  destruct Hside as [(-> & -> & ->)|(-> & -> & ->)]; cbn [bind];
    fold diff; rewrite H1, H2; reflexivity.
Qed.

(** X15. A hit-mode cycle on a frame that is long enough: with the turn
    type RIGHT (resp. LEFT), when the right window's low limit and bearing
    90 (resp. the left window's high limit and bearing 630) are inside the
    frame, the cycle returns, having published exactly one command and
    changed nothing else. *)
Theorem hit_cycle_returns_in_frame (env : Env) (msg : circle_detect_msg)
  (this : HighLevelControl) :
  let specs := move_specs_ this in
  let n := Z.of_nat (length (msg_ranges msg)) in
  circle_hit_mode_ this = true ->
  (turn_type_ specs = RIGHT /\ (0 <= low_lim_ (right_range_ specs) < n /\ 90 < n)%Z) \/
  (turn_type_ specs = LEFT /\ (0 <= high_lim_ (left_range_ specs) < n /\ 630 < n)%Z) ->
  exists c, LaserCallback sin GetMin env msg this = Ok (publish c this).
Proof.
  intros specs n Hhit Hin. subst specs n.
  rewrite LaserCallback_hit_path by assumption.
  destruct (HitCircle_returns sin (msg_ranges msg) this) as [this' H].
  - intros Ht. destruct Hin as [[_ Hin]|[Ht' _]]; [exact Hin|congruence].
  - intros Ht. destruct Hin as [[Ht' _]|[_ Hin]]; [congruence|exact Hin].
  - rewrite H. apply HitCircle_cases in H as [(Hn & _)|(_ & c & _ & ->)].
    + destruct Hin as [[Ht _]|[Ht _]]; congruence.
    + now exists c.
Qed.


End Bounds.

(** ** Construction *)

Lemma getParam_spec {A : Type} (params : String.string -> option A) (key : String.string)
  (var : A) :
  getParam params key var = (present params key, value_or (params key) var).
Proof. unfold getParam, present, value_or. now destruct (params key). Qed.

Lemma InitialiseMoveSpecs_eq (node_ : NodeHandle) (this : HighLevelControl) :
  let s := move_specs_ this in
  let d := param_double node_ in
  let i := param_int node_ in
  let loaded_specs :=
    mkMoveSpecs
      (value_or (d "/HighLevelControl/high_security_distance"%string) (high_security_distance_ s))
      (value_or (d "/HighLevelControl/low_security_distance"%string) (low_security_distance_ s))
      (value_or (d "/HighLevelControl/wall_follow_distance"%string) (wall_follow_distance_ s))
      (value_or (d "/HighLevelControl/linear_velocity"%string) (linear_velocity_ s))
      (value_or (d "/HighLevelControl/angular_velocity"%string) (angular_velocity_ s))
      (mkRange
         (value_or (i "/HighLevelControl/right_range_low_lim"%string) (low_lim_ (right_range_ s)))
         (value_or (i "/HighLevelControl/right_range_high_lim"%string) (high_lim_ (right_range_ s))))
      (mkRange
         (value_or (i "/HighLevelControl/left_range_low_lim"%string) (low_lim_ (left_range_ s)))
         (value_or (i "/HighLevelControl/left_range_high_lim"%string) (high_lim_ (left_range_ s))))
      (mkRange
         (value_or (i "/HighLevelControl/center_range_low_lim"%string) (low_lim_ (center_range_ s)))
         (value_or (i "/HighLevelControl/center_range_high_lim"%string) (high_lim_ (center_range_ s))))
      NONE in
  InitialiseMoveSpecs node_ this
  = if all_loaded node_ then set_move_specs_ loaded_specs this
    else ros_shutdown (set_move_specs_ loaded_specs this).
Proof.
  cbv zeta. unfold InitialiseMoveSpecs. rewrite !getParam_spec. cbv beta iota zeta.
  unfold all_loaded, double_keys, int_keys. cbn [forallb].
  repeat match goal with
         | |- context [present ?p ?k] =>
             let b := fresh "b" in
             generalize (present p k); intros b; destruct b; cbn [negb andb Bool.eqb]
         end; reflexivity.
Qed.

(** X17. Missing parameters: [InitialiseMoveSpecs] calls [ros::shutdown()]
    exactly when at least one of its eleven keys is missing from the
    parameter server; it never withdraws a shutdown already requested. *)
Theorem InitialiseMoveSpecs_shutdown_iff (node_ : NodeHandle) (this : HighLevelControl) :
  ros_shutdown_ (InitialiseMoveSpecs node_ this)
  = ros_shutdown_ this || negb (all_loaded node_).
Proof.
  pose proof (InitialiseMoveSpecs_eq node_ this) as H. cbv zeta in H. rewrite H.
  destruct (all_loaded node_); cbn; [now rewrite orb_false_r|now rewrite orb_true_r].
Qed.

(** X18. A missing parameter does not stop the load: whatever is missing,
    every key that is present is stored in its field, every missing key
    leaves its field as it was, the turn type is reset to NONE, and the
    status, the target coordinates, the hit mode and the publisher are not
    touched (construction goes on after the shutdown request). *)
Theorem InitialiseMoveSpecs_loads_each_key (node_ : NodeHandle) (this : HighLevelControl) :
  let s := move_specs_ this in
  let s' := move_specs_ (InitialiseMoveSpecs node_ this) in
  let d := param_double node_ in
  let i := param_int node_ in
  (high_security_distance_ s'
   = value_or (d "/HighLevelControl/high_security_distance"%string) (high_security_distance_ s) /\
   low_security_distance_ s'
   = value_or (d "/HighLevelControl/low_security_distance"%string) (low_security_distance_ s) /\
   wall_follow_distance_ s'
   = value_or (d "/HighLevelControl/wall_follow_distance"%string) (wall_follow_distance_ s) /\
   linear_velocity_ s'
   = value_or (d "/HighLevelControl/linear_velocity"%string) (linear_velocity_ s) /\
   angular_velocity_ s'
   = value_or (d "/HighLevelControl/angular_velocity"%string) (angular_velocity_ s)) /\
  (low_lim_ (right_range_ s')
   = value_or (i "/HighLevelControl/right_range_low_lim"%string) (low_lim_ (right_range_ s)) /\
   high_lim_ (right_range_ s')
   = value_or (i "/HighLevelControl/right_range_high_lim"%string) (high_lim_ (right_range_ s)) /\
   low_lim_ (left_range_ s')
   = value_or (i "/HighLevelControl/left_range_low_lim"%string) (low_lim_ (left_range_ s)) /\
   high_lim_ (left_range_ s')
   = value_or (i "/HighLevelControl/left_range_high_lim"%string) (high_lim_ (left_range_ s)) /\
   low_lim_ (center_range_ s')
   = value_or (i "/HighLevelControl/center_range_low_lim"%string) (low_lim_ (center_range_ s)) /\
   high_lim_ (center_range_ s')
   = value_or (i "/HighLevelControl/center_range_high_lim"%string) (high_lim_ (center_range_ s))) /\
  turn_type_ s' = NONE /\
  move_status_ (InitialiseMoveSpecs node_ this) = move_status_ this /\
  circle_x (InitialiseMoveSpecs node_ this) = circle_x this /\
  circle_y (InitialiseMoveSpecs node_ this) = circle_y this /\
  circle_hit_mode_ (InitialiseMoveSpecs node_ this) = circle_hit_mode_ this /\
  cmd_vel_pub_ (InitialiseMoveSpecs node_ this) = cmd_vel_pub_ this.
Proof.
  cbv zeta.
  pose proof (InitialiseMoveSpecs_eq node_ this) as H. cbv zeta in H. rewrite H.
  destruct (all_loaded node_); cbn; repeat split.
Qed.

(** ** The properties above on concrete runs *)

Lemma wall_side_chosen_invariant_witness :
  Forall wall_side_chosen
    (run sin60 GetMin_model hlc0
       [(env0, cycle_blocked); (env0, cycle_target); (env0, cycle_lost)]).
Proof.
  apply (wall_side_chosen_invariant sin60 GetMin_model
           [(env0, cycle_blocked); (env0, cycle_target); (env0, cycle_lost)] hlc0).
  intros H. vm_compute in H. discriminate H.
Defined.

Lemma following_wall_is_permanent_witness :
  Forall (fun st => is_following_wall_ (move_status_ st) = true /\
                    turn_type_ (move_specs_ st) = LEFT)
    (run sin60 GetMin_model (following LEFT true false false)
       [(env0, cycle_blocked); (env0, cycle_target); (env0, cycle_lost)]).
Proof.
  apply (following_wall_is_permanent sin60 GetMin_model
           [(env0, cycle_blocked); (env0, cycle_target); (env0, cycle_lost)]
           (following LEFT true false false)).
  reflexivity.
Defined.

(** The three cycles from the constructed controller do complete. *)
Example three_cycles_complete :
  length (run sin60 GetMin_model hlc0
            [(env0, cycle_blocked); (env0, cycle_target); (env0, cycle_lost)]) = 3%nat /\
  length (run sin60 GetMin_model (following LEFT true false false)
            [(env0, cycle_blocked); (env0, cycle_target); (env0, cycle_lost)]) = 3%nat.
Proof. split; vm_compute; reflexivity. Qed.

Lemma cycle_publishes_at_most_one_witness :
  exists this',
    LaserCallback sin60 GetMin_model env0 cycle_target (following RIGHT true false false)
    = Ok this' /\
    (cmd_vel_pub_ this' = [] \/
     exists c, cmd_vel_pub_ this' = [c] /\ (c = mkTwist 0.2 0 \/ linear_x c = 0)).
Proof.
  eexists. split; [vm_compute; reflexivity|].
  apply (cycle_publishes_at_most_one sin60 GetMin_model env0 cycle_target
           (following RIGHT true false false)).
  vm_compute. reflexivity.
Defined.

Lemma following_cycle_publishes_one_witness :
  exists this' c,
    LaserCallback sin60 GetMin_model env0 cycle_blocked (following RIGHT true false false)
    = Ok this' /\
    cmd_vel_pub_ this' = [c].
Proof.
  eexists.
  assert (Hcb : LaserCallback sin60 GetMin_model env0 cycle_blocked
                  (following RIGHT true false false) = Ok _) by (vm_compute; reflexivity).
  destruct (following_cycle_publishes_one sin60 GetMin_model env0 cycle_blocked
              (following RIGHT true false false) _ eq_refl
              ltac:(discriminate) Hcb) as [c Hc].
  exists c. split; [exact Hcb|exact Hc].
Defined.

Lemma hit_mode_without_side_is_inert_witness :
  run sin60 GetMin_model inert0
    [(env0, cycle_blocked); (env1, cycle_target); (env0, cycle_short)]
  = [inert0; inert0; inert0].
Proof.
  apply (hit_mode_without_side_is_inert sin60 GetMin_model
           [(env0, cycle_blocked); (env1, cycle_target); (env0, cycle_short)] inert0);
    reflexivity.
Defined.

(** The inert state is reached in one cycle from the constructed
    controller: an open path and the target of scenario F. *)
Example inert_state_is_reachable :
  LaserCallback sin60 GetMin_model env0 cycle_target hlc0 = Ok inert0.
Proof. vm_compute. reflexivity. Qed.

Lemma target_recorded_then_frozen_witness :
  exists this',
    LaserCallback sin60 GetMin_model env0 cycle_target (following RIGHT true false false)
    = Ok this' /\
    circle_x this' = 0 /\ circle_y this' = 0.5.
Proof.
  eexists.
  assert (Hcb : LaserCallback sin60 GetMin_model env0 cycle_target
                  (following RIGHT true false false) = Ok _) by (vm_compute; reflexivity).
  split; [exact Hcb|].
  exact (proj1 (target_recorded_then_frozen sin60 GetMin_model env0 cycle_target
                  (following RIGHT true false false) _ Hcb) eq_refl).
Defined.

Lemma no_target_no_switch_witness :
  Forall (fun st => circle_hit_mode_ st = false)
    (run sin60 GetMin_model hlc0 [(env0, cycle_blocked); (env0, cycle_lost)]).
Proof.
  apply (no_target_no_switch sin60 GetMin_model
           [(env0, cycle_blocked); (env0, cycle_lost)] hlc0).
  - reflexivity.
  - repeat constructor.
Defined.

Lemma wall_follow_turns_are_opposite_witness :
  WallFollowMove env0 (following LEFT false false false)
  = publish (mkTwist 0 0.4) (following LEFT false false false) /\
  WallFollowMove env0 (following LEFT true false false)
  = publish (mkTwist 0 (-0.4)) (following LEFT true false false).
Proof.
  destruct (proj2 (wall_follow_turns_are_opposite env0 (following LEFT false false false)
                     eq_refl) eq_refl) as [H1 _].
  destruct (proj2 (wall_follow_turns_are_opposite env0 (following LEFT true false false)
                     eq_refl) eq_refl) as [_ H2].
  split; [exact (H1 eq_refl)|exact (H2 eq_refl eq_refl)].
Defined.

(** A NaN centre minimum with both sides clear: the controller continues. *)
Lemma nan_in_clearance_witness :
  can_continue_ (move_status_ (CanContinue 2 2 nan (following RIGHT false false false))) = true.
Proof.
  apply (proj1 (proj1 (nan_in_clearance 2 2 nan (following RIGHT false false false))
                  eq_refl) nan_unordered).
  split; reflexivity.
Defined.

Lemma nan_side_is_not_close_witness :
  IsCloseToWall env0 nan 2 2 (following RIGHT true true false)
  = set_is_close_to_wall_ false (following RIGHT true true false).
Proof.
  apply (nan_side_is_not_close env0 nan 2 2 (following RIGHT true true false)).
  - reflexivity.
  - left. split; [reflexivity|exact nan_unordered].
Defined.

Lemma nan_diff_takes_last_branch_witness :
  LaserCallback sin60 GetMin_model env0 (mkMsg frameNaN 0 0.5) (following RIGHT true false true)
  = Ok (publish (mkTwist 0 (-0.1)) (following RIGHT true false true)).
Proof.
  apply (nan_diff_takes_last_branch sin60 GetMin_model env0 (mkMsg frameNaN 0 0.5)
           (following RIGHT true false true) 1 nan).
  - reflexivity.
  - left. repeat split.
  - unfold ordered. vm_compute. discriminate.
Defined.

Lemma hit_cycle_returns_in_frame_witness :
  exists c,
    LaserCallback sin60 GetMin_model env0 cycle_lost (following RIGHT true false true)
    = Ok (publish c (following RIGHT true false true)).
Proof.
  apply (hit_cycle_returns_in_frame sin60 GetMin_model env0 cycle_lost
           (following RIGHT true false true) eq_refl).
  left. split; [reflexivity|]. vm_compute. repeat split; discriminate.
Defined.


(** The constructor on a full parameter server gives the controller
    [hlc0]; without the angular velocity it gives a controller that has
    asked for the shutdown, holds the other ten values, and runs on. *)
Example ctor_full : HighLevelControl_ctor node_full blank = hlc0.
Proof. vm_compute. reflexivity. Qed.

Example ctor_partial :
  ros_shutdown_ (HighLevelControl_ctor node_partial blank) = true /\
  linear_velocity_ (move_specs_ (HighLevelControl_ctor node_partial blank)) = 0.2 /\
  angular_velocity_ (move_specs_ (HighLevelControl_ctor node_partial blank)) = 0 /\
  length (run sin60 GetMin_model (HighLevelControl_ctor node_partial blank)
            [(env0, cycle_blocked); (env0, cycle_target)]) = 2%nat.
Proof. vm_compute. repeat split. Qed.

(** ** The wall-proximity test, as the code has it *)


